(** * smile: extent-addressed file storage and paged B+tree nodes

    A shallow embedding of [src/storage/file_storage.cpp] and of the node
    layer of [src/data/impl/btree_impl.h], with the properties of the
    storage engine's specification stated and proved over it.

    Layout of the development: machine integers, little-endian bytes, the
    [std::fstream] the store is built on, [FileStorage], the buffer pool the
    tree consumes, the B+tree node functions; then the theorems. *)

From stdpp Require Import gmap strings list fin_maps list_numbers.
From Stdlib Require Import ZArith Lia.

Local Open Scope Z_scope.

(** ** Fixed-width integers

    C++ integer conversions, on [Z], with the wrap-around written out. *)
Module CInt.

Definition to_u32 (z : Z) : Z := z mod 2 ^ 32.
Definition to_u64 (z : Z) : Z := z mod 2 ^ 64.
Definition to_i32 (z : Z) : Z := (z + 2 ^ 31) mod 2 ^ 32 - 2 ^ 31.
Definition to_i64 (z : Z) : Z := (z + 2 ^ 63) mod 2 ^ 64 - 2 ^ 63.

Definition is_u32 (z : Z) : Prop := 0 <= z < 2 ^ 32.
Definition is_u64 (z : Z) : Prop := 0 <= z < 2 ^ 64.

End CInt.

(** ** Raw bytes

    A byte is an 8-bit [Z]. Objects are written to files and pages as their
    in-memory image; the image of an unsigned integer is little-endian (the
    format is native-endian, the embedding fixes the common case). *)
Module Bytes.

Fixpoint le_bytes (n : nat) (v : Z) : list Z :=
  match n with
  | O => []
  | S n' => v mod 256 :: le_bytes n' (v / 256)
  end.

Fixpoint le_value (bs : list Z) : Z :=
  match bs with
  | [] => 0
  | b :: bs' => b + 256 * le_value bs'
  end.

(** Storing [src] over the first bytes of an object whose image is [old]:
    what a short [read] into the object leaves behind. *)
Definition overlay (src old : list Z) : list Z :=
  src ++ drop (length src) old.

End Bytes.

(** ** Error codes

    The enumerators that the two translation units return. The pool's own
    failures are declared with the pool, outside the sources at hand; one
    enumerator stands for them. *)
Inductive ErrorCode : Type :=
  | E_NO_ERROR
  | E_STORAGE_INVALID_PATH
  | E_STORAGE_PATH_ALREADY_EXISTS
  | E_STORAGE_OUT_OF_BOUNDS_WRITE
  | E_STORAGE_NOT_OPEN
  | E_STORAGE_CRITICAL_ERROR
  | E_STORAGE_OUT_OF_BOUNDS_EXTENT
  | E_STORAGE_OUT_OF_BOUNDS_READ
  | E_BTREE_CORRUPTED_PAGE
  | E_BTREE_KEY_NOT_FOUND
  | E_BUFPOOL_FAILURE.

#[global] Instance ErrorCode_eq_dec : EqDecision ErrorCode.
Proof. solve_decision. Defined.

(** Modelled from the spec: [isError] is declared in base/platform.h, which
    is not among the sources; every fallible operation returns an
    [ErrorCode] and [E_NO_ERROR] is success. *)
Definition isError (err : ErrorCode) : bool :=
  negb (bool_decide (err = E_NO_ERROR)).

(** ** [std::fstream] over a file system

    The standard stream the store keeps in [m_file], as the C++ standard
    defines the members used by file_storage.cpp. A file is its length and
    its bytes; bytes never written read as zero, which is how a write past
    the end fills the gap. Offsets are [off_t]: a position is valid between
    [0] and [2^63 - 1]. The stream is modelled unbuffered, as one handle
    observes it. *)
Module FStream.

Record File : Type := mkFile {
  f_len : Z;
  f_bytes : gmap Z Z
}.

Record FileSystem : Type := mkFS {
  fs_files : gmap string File;
  (** paths no open can succeed on (missing directory, no permission) *)
  fs_denied : gset string
}.

Definition max_off : Z := 2 ^ 63 - 1.

Definition empty_file : File := mkFile 0 ∅.

Definition byte_at (f : File) (i : Z) : Z := default 0 (f_bytes f !! i).

Fixpoint write_bytes (pos : Z) (data : list Z) (m : gmap Z Z) : gmap Z Z :=
  match data with
  | [] => m
  | b :: data' => write_bytes (pos + 1) data' (<[pos := b]> m)
  end.

Definition file_write (f : File) (pos : Z) (data : list Z) : File :=
  mkFile (Z.max (f_len f) (pos + Z.of_nat (length data)))
         (write_bytes pos data (f_bytes f)).

Definition file_read (f : File) (pos n : Z) : list Z :=
  (fun i => byte_at f (pos + i)) <$> seqZ 0 n.

(** [std::ifstream(path)] converted to [bool]: the file can be opened for
    reading. *)
Definition readable (fs : FileSystem) (path : string) : bool :=
  bool_decide (path ∉ fs_denied fs) && bool_decide (is_Some (fs_files fs !! path)).

(** The stream: the file its buffer has open, the buffer's position, and
    whether [rdstate()] is other than [goodbit]. The program tests the
    stream only through [operator!] and the sentries; [eofbit] is only
    ever raised together with [failbit] (by a short [read]) and [badbit]
    counts as failure for both tests, so one flag is exact. *)
Record fstream : Type := mkStream {
  is_open : option string;
  pos : Z;
  failed : bool
}.

(** A default-constructed stream: nothing open, [goodbit]. *)
Definition fresh : fstream := mkStream None 0 false.

Definition setfail (s : fstream) : fstream := mkStream (is_open s) (pos s) true.
Definition setpos (s : fstream) (p : Z) : fstream := mkStream (is_open s) p (failed s).

(** [open(path, in | out | binary)], with [trunc] when [truncate]. Fails
    when the buffer already has a file open, or the file cannot be opened;
    a successful open calls [clear()]. *)
Definition open (path : string) (truncate : bool) (fs : FileSystem) (s : fstream)
  : FileSystem * fstream :=
  match is_open s with
  | Some _ => (fs, setfail s)
  | None =>
      if bool_decide (path ∈ fs_denied fs) then (fs, setfail s)
      else if truncate then
        (mkFS (<[path := empty_file]> (fs_files fs)) (fs_denied fs),
         mkStream (Some path) 0 false)
      else match fs_files fs !! path with
           | Some _ => (fs, mkStream (Some path) 0 false)
           | None => (fs, setfail s)
           end
  end.

(** [close()]: [failbit] when no file is open. *)
Definition close (s : fstream) : fstream :=
  match is_open s with
  | Some _ => mkStream None (pos s) (failed s)
  | None => setfail s
  end.

Inductive seekdir : Type := beg | cur | end_.

Definition the_file (fs : FileSystem) (s : fstream) : option File :=
  path ← is_open s; fs_files fs !! path.

(** [rdbuf()->pubseekoff(off, dir)]: the new position, or [None] for
    [pos_type(-1)]. *)
Definition seekoff (fs : FileSystem) (s : fstream) (off : Z) (dir : seekdir) : option Z :=
  f ← the_file fs s;
  let base := match dir with beg => 0 | cur => pos s | end_ => f_len f end in
  if bool_decide (0 <= base + off <= max_off) then Some (base + off) else None.

(** [seekg(off, dir)] and [seekp(off, dir)]: nothing happens on a failed
    stream; a seek the buffer refuses sets [failbit]. *)
Definition seek (fs : FileSystem) (s : fstream) (off : Z) (dir : seekdir) : fstream :=
  if failed s then s
  else match seekoff fs s off dir with
       | Some p => setpos s p
       | None => setfail s
       end.

Definition seekg := seek.
Definition seekp := seek.

(** [tellg()] and [tellp()]: [-1] on a failed stream. *)
Definition tell (fs : FileSystem) (s : fstream) : Z :=
  if failed s then -1
  else match seekoff fs s 0 cur with
       | Some p => p
       | None => -1
       end.

Definition tellg := tell.
Definition tellp := tell.

(** [read(buf, n)]: the stream afterwards and the characters stored in
    [buf]; fewer than [n] of them set [eofbit | failbit]. *)
Definition read (fs : FileSystem) (s : fstream) (n : Z) : fstream * list Z :=
  if failed s then (s, [])
  else match the_file fs s with
       | None => (if bool_decide (n = 0) then s else setfail s, [])
       | Some f =>
           let got := Z.min n (Z.max 0 (f_len f - pos s)) in
           let s' := setpos s (pos s + got) in
           (if bool_decide (got = n) then s' else setfail s', file_read f (pos s) got)
       end.

(** [write(buf, n)] with [data] the [n] characters at [buf]; a write the
    buffer cannot complete sets [badbit]. *)
Definition write (fs : FileSystem) (s : fstream) (data : list Z) : FileSystem * fstream :=
  let n := Z.of_nat (length data) in
  if failed s then (fs, s)
  else if bool_decide (n = 0) then (fs, s)
  else match is_open s with
       | None => (fs, setfail s)
       | Some path =>
           match fs_files fs !! path with
           | None => (fs, setfail s)
           | Some f =>
               if bool_decide (pos s + n <= max_off) then
                 (mkFS (<[path := file_write f (pos s) data]> (fs_files fs)) (fs_denied fs),
                  setpos s (pos s + n))
               else (fs, setfail s)
           end
       end.

(** [flush()]: nothing is buffered. *)
Definition flush (s : fstream) : fstream := s.

End FStream.

(** ** [FileStorage] (src/storage/file_storage.cpp) *)
Module FileStorage.
Import CInt Bytes FStream.

(** Modelled from the spec: [FileStorageConfig] is declared in
    file_storage.h, which is not among the sources; its one mandated
    field is [extentSizeKB : uint32], and the tests build it from one
    number. *)
Record FileStorageConfig : Type := mkConfig {
  m_extentSizeKB : Z
}.

Definition wf_config (c : FileStorageConfig) : Prop := is_u32 (m_extentSizeKB c).

Definition sizeof_config : nat := 4.
Definition config_image (c : FileStorageConfig) : list Z :=
  le_bytes sizeof_config (m_extentSizeKB c).
Definition config_of_image (bs : list Z) : FileStorageConfig :=
  mkConfig (le_value bs).

(** The members; [extentId_t] and [m_size] are 64-bit unsigned
    (file_storage.h is not among the sources; [size()] returns
    [uint64_t]). [m_flags] is the constant [in | out | binary]. *)
Record t : Type := mkStorage {
  m_file : fstream;
  m_config : FileStorageConfig;
  m_size : Z;
  m_extentFiller : list Z
}.

Definition with_file (s : t) (f : fstream) : t :=
  mkStorage f (m_config s) (m_size s) (m_extentFiller s).
Definition with_size (s : t) (n : Z) : t :=
  mkStorage (m_file s) (m_config s) n (m_extentFiller s).

(** The constructor leaves [m_config] and [m_size] to their declarations;
    the values they start with are parameters here. *)
Definition new (c : FileStorageConfig) (sz : Z) : t :=
  mkStorage fresh c sz [].

Definition getExtentSize (c : FileStorageConfig) : Z :=
  to_u32 (m_extentSizeKB c * 1024).

(** [bytes / getExtentSize()]; dividing by zero is undefined. *)
Definition bytesToExtent (c : FileStorageConfig) (bytes : Z) : option Z :=
  if bool_decide (getExtentSize c = 0) then None
  else Some (bytes / getExtentSize c).

Definition extentToBytes (c : FileStorageConfig) (extent : Z) : Z :=
  to_u64 (extent * getExtentSize c).

(** [v.resize(n, '\0')] *)
Definition resize (v : list Z) (n : Z) : list Z :=
  take (Z.to_nat n) v ++ replicate (Z.to_nat n - length v)%nat 0.

Definition size (s : t) : Z := m_size s.
Definition config (s : t) : FileStorageConfig := m_config s.

(** The result of a member function: the file system and the object
    afterwards, the returned code, and the value left in the reference or
    buffer argument. [None] is undefined behaviour. *)
Definition result (A : Type) : Type := option (FileSystem * t * ErrorCode * A).

Definition reserve (fs : FileSystem) (s : t) (numExtents : Z) (extent : Z) : result Z :=
  let f1 := seekp fs (m_file s) 0 end_ in
  if failed f1 then Some (fs, with_file s f1, E_STORAGE_CRITICAL_ERROR, extent)
  else
    extent' ← bytesToExtent (m_config s) (to_u64 (tellp fs f1));
    let f2 := seekp fs f1 (to_i64 (extentToBytes (m_config s) (to_u32 (numExtents - 1)))) end_ in
    let '(fs3, f3) := FStream.write fs f2 (m_extentFiller s) in
    if failed f3 then Some (fs3, with_file s f3, E_STORAGE_OUT_OF_BOUNDS_WRITE, extent')
    else
      sz ← bytesToExtent (m_config s) (to_u64 (tellp fs3 f3));
      Some (fs3, with_size (with_file s f3) sz, E_NO_ERROR, extent').

Definition open (fs : FileSystem) (s : t) (path : string) : result unit :=
  let '(fs1, f1) := FStream.open path false fs (m_file s) in
  if failed f1 then Some (fs1, with_file s f1, E_STORAGE_INVALID_PATH, ())
  else
    let f2 := seekg fs1 f1 0 beg in
    let '(f3, bytes) := FStream.read fs1 f2 (Z.of_nat sizeof_config) in
    let c := config_of_image (overlay bytes (config_image (m_config s))) in
    let filler := resize (m_extentFiller s) (getExtentSize c) in
    let f4 := seekg fs1 f3 0 end_ in
    sz ← bytesToExtent c (to_u64 (tellg fs1 f4));
    Some (fs1, mkStorage f4 c sz filler, E_NO_ERROR, ()).

Definition create (fs : FileSystem) (s : t) (path : string)
    (cfg : FileStorageConfig) (overwrite : bool) : result unit :=
  if negb overwrite && readable fs path
  then Some (fs, s, E_STORAGE_PATH_ALREADY_EXISTS, ())
  else
    let '(fs1, f1) := FStream.open path true fs (m_file s) in
    if failed f1 then Some (fs1, with_file s f1, E_STORAGE_INVALID_PATH, ())
    else
      let s1 := mkStorage f1 cfg (m_size s) (resize (m_extentFiller s) (getExtentSize cfg)) in
      (* [eid] is an uninitialised local that is only written *)
      '(fs2, s2, _, _) ← reserve fs1 s1 1 0;
      let f3 := seekp fs2 (m_file s2) 0 beg in
      let '(fs4, f4) := FStream.write fs2 f3 (config_image (m_config s2)) in
      let f5 := flush f4 in
      if failed f5 then Some (fs4, with_file s2 f5, E_STORAGE_OUT_OF_BOUNDS_WRITE, ())
      else Some (fs4, with_file s2 f5, E_NO_ERROR, ()).

Definition close (fs : FileSystem) (s : t) : FileSystem * t * ErrorCode :=
  if negb (failed (m_file s))
  then (fs, with_file s (FStream.close (m_file s)), E_NO_ERROR)
  else (fs, s, E_STORAGE_NOT_OPEN).

(** [data] is the caller's buffer; storing past its end is undefined. *)
Definition read (fs : FileSystem) (s : t) (data : list Z) (extent : Z) : result (list Z) :=
  if bool_decide (extent = 0) || bool_decide (extent >= m_size s)
  then Some (fs, s, E_STORAGE_OUT_OF_BOUNDS_EXTENT, data)
  else
    let f1 := seekg fs (m_file s) (to_i64 (extentToBytes (m_config s) extent)) beg in
    if failed f1 then Some (fs, with_file s f1, E_STORAGE_OUT_OF_BOUNDS_EXTENT, data)
    else
      let '(f2, bytes) := FStream.read fs f1 (getExtentSize (m_config s)) in
      if bool_decide (length data < length bytes)%nat then None
      else if failed f2
      then Some (fs, with_file s f2, E_STORAGE_OUT_OF_BOUNDS_READ, overlay bytes data)
      else Some (fs, with_file s f2, E_NO_ERROR, overlay bytes data).

(** [data] is the caller's buffer; loading past its end is undefined. *)
Definition write (fs : FileSystem) (s : t) (data : list Z) (extent : Z) : result unit :=
  if bool_decide (extent = 0) || bool_decide (extent >= m_size s)
  then Some (fs, s, E_STORAGE_OUT_OF_BOUNDS_EXTENT, ())
  else
    let f1 := seekp fs (m_file s) (to_i64 (extentToBytes (m_config s) extent)) beg in
    if failed f1 then Some (fs, with_file s f1, E_STORAGE_OUT_OF_BOUNDS_EXTENT, ())
    else if bool_decide (Z.of_nat (length data) < getExtentSize (m_config s)) then None
    else
      let '(fs2, f2) :=
        FStream.write fs f1 (take (Z.to_nat (getExtentSize (m_config s))) data) in
      if failed f2
      then Some (fs2, with_file s f2, E_STORAGE_OUT_OF_BOUNDS_WRITE, ())
      else Some (fs2, with_file s f2, E_NO_ERROR, ()).

End FileStorage.

(** ** The buffer pool

    Modelled from the spec: memory/buffer_pool.h is not among the sources.
    The tree consumes [alloc], [pin], [unpin], [setPageDirty] and
    [getPageSize]; each returns an [ErrorCode]; a page may be pinned several
    times and every pin is dropped by one [unpin]. A frame is the page's
    buffer; the node header at its start is kept as the typed record the
    tree sees through [p_pageHeader], the buffer as raw bytes (the header's
    own bytes, at the front, are not interpreted). *)
Module BufferPool.

Inductive BTNodeType : Type := E_INTERNAL | E_LEAF.

#[global] Instance BTNodeType_eq_dec : EqDecision BTNodeType.
Proof. solve_decision. Defined.

(** [struct BTNodePageHeader] of btree_impl.h: [int32_t] counters and
    [size_t] sizes and offsets. *)
Record BTNodePageHeader : Type := mkHeader {
  m_type : BTNodeType;
  m_maxNumElements : Z;
  m_numElements : Z;
  m_keySize : Z;
  m_keyStart : Z;
  m_elementSize : Z;
  m_elementStart : Z
}.

Record Page : Type := mkPage {
  pg_header : BTNodePageHeader;
  pg_bytes : list Z
}.

Record t : Type := mkPool {
  bp_pageSize : Z;
  (** the frames of the pages in use *)
  bp_pages : gmap Z Page;
  (** pin counts *)
  bp_pins : gmap Z nat;
  bp_dirty : gset Z;
  (** the pages [alloc] can hand out next, each with the contents its
      frame happens to have *)
  bp_free : list (Z * Page)
}.

(** [BufferHandler]: the page id; [m_buffer] is the frame of that page. *)
Record BufferHandler : Type := mkHandler {
  m_pId : Z
}.

Definition pin_count (bp : t) (pId : Z) : nat := default 0%nat (bp_pins bp !! pId).

Definition getPageSize (bp : t) : Z := bp_pageSize bp.

Definition alloc (bp : t) (h : BufferHandler) : t * ErrorCode * BufferHandler :=
  match bp_free bp with
  | [] => (bp, E_BUFPOOL_FAILURE, h)
  | (pId, pg) :: rest =>
      (mkPool (bp_pageSize bp) (<[pId := pg]> (bp_pages bp))
              (<[pId := S (pin_count bp pId)]> (bp_pins bp)) (bp_dirty bp) rest,
       E_NO_ERROR, mkHandler pId)
  end.

Definition pin (bp : t) (pId : Z) (h : BufferHandler) : t * ErrorCode * BufferHandler :=
  match bp_pages bp !! pId with
  | Some _ =>
      (mkPool (bp_pageSize bp) (bp_pages bp)
              (<[pId := S (pin_count bp pId)]> (bp_pins bp)) (bp_dirty bp) (bp_free bp),
       E_NO_ERROR, mkHandler pId)
  | None => (bp, E_BUFPOOL_FAILURE, h)
  end.

Definition unpin (bp : t) (pId : Z) : t * ErrorCode :=
  match pin_count bp pId with
  | S n =>
      (mkPool (bp_pageSize bp) (bp_pages bp) (<[pId := n]> (bp_pins bp))
              (bp_dirty bp) (bp_free bp),
       E_NO_ERROR)
  | O => (bp, E_BUFPOOL_FAILURE)
  end.

Definition setPageDirty (bp : t) (pId : Z) : t * ErrorCode :=
  match bp_pages bp !! pId with
  | Some _ =>
      (mkPool (bp_pageSize bp) (bp_pages bp) (bp_pins bp)
              ({[pId]} ∪ bp_dirty bp) (bp_free bp),
       E_NO_ERROR)
  | None => (bp, E_BUFPOOL_FAILURE)
  end.

(** Writing through the handler's buffer changes the frame. *)
Definition set_page (bp : t) (pId : Z) (pg : Page) : t :=
  mkPool (bp_pageSize bp) (<[pId := pg]> (bp_pages bp)) (bp_pins bp)
         (bp_dirty bp) (bp_free bp).

End BufferPool.

(** ** Accesses to a page buffer

    Typed loads and stores at a byte offset; outside the buffer they are
    undefined ([None]). *)
Module Mem.
Import Bytes.

Definition in_range (buf : list Z) (off n : Z) : Prop :=
  0 <= off /\ 0 <= n /\ off + n <= Z.of_nat (length buf).

#[global] Instance in_range_dec buf off n : Decision (in_range buf off n).
Proof. unfold in_range. apply _. Defined.

Definition load (buf : list Z) (off size : Z) : option Z :=
  if decide (in_range buf off size)
  then Some (le_value (take (Z.to_nat size) (drop (Z.to_nat off) buf)))
  else None.

Definition splice (buf : list Z) (off : Z) (src : list Z) : list Z :=
  take (Z.to_nat off) buf ++ src ++ drop (Z.to_nat off + length src) buf.

Definition store (buf : list Z) (off size : Z) (v : Z) : option (list Z) :=
  if decide (in_range buf off size)
  then Some (splice buf off (le_bytes (Z.to_nat size) v))
  else None.

Definition memset (buf : list Z) (off : Z) (c : Z) (n : Z) : option (list Z) :=
  if decide (in_range buf off n)
  then Some (splice buf off (replicate (Z.to_nat n) c))
  else None.

End Mem.

(** ** B+tree nodes (src/data/impl/btree_impl.h) *)
Module BTree.
Import CInt Bytes Mem BufferPool.

(** The template parameters and the environment of the header file. [K]
    and [V] are fixed-size; keys and values are modelled as unsigned
    integers of [sizeof_K] and [sizeof_V] bytes, ordered as numbers.
    [INVALID_PAGE_ID] is defined outside the sources and is a parameter. *)
Class Types : Type := mkTypes {
  sizeof_K : Z;
  sizeof_V : Z;
  INVALID_PAGE_ID : Z
}.

(** LP64: [size_t] and [pageId_t] are 8 bytes; [BTNodePageHeader] is a
    byte, two [int32_t] and four [size_t], 48 bytes with padding. *)
Definition sizeof_size_t : Z := 8.
Definition sizeof_pageId_t : Z := 8.
Definition sizeof_BTNodePageHeader : Z := 48.

(** [struct BTNode]. Pointers into the handler's buffer are offsets,
    [None] is [nullptr]. [m_internal.p_keys] and [m_leaf.p_keys] share
    storage, and so do [m_internal.p_children] and [m_leaf.p_values]. *)
Record BTNode : Type := mkNode {
  m_handler : BufferHandler;
  p_pageHeader : option Z;
  p_keys : option Z;
  p_children_values : option Z;
  m_next : Z;
  m_dirty : bool
}.

(** A [BTNode] local before anything is assigned to it; whatever is read
    of a node is assigned first. *)
Definition uninitialised : BTNode :=
  mkNode (mkHandler 0) None None None 0 false.

Section Templates.
Context {T : Types}.

(** Lines 176 to 191 of [btree_create_node]: the capacity and the two
    offsets, in the arithmetic of the operand types. [sizeOfElement] is
    a [size_t] variable, so [sizeof(sizeOfElement)] is
    [sizeof(size_t)]. The result is
    [(maxNumElements, keyStart, elementStart)]. *)
Definition node_layout (pageSize : Z) : Z * Z * Z :=
  let availableSize := to_i32 (to_u64 (pageSize - sizeof_BTNodePageHeader)) in
  let availableSize :=
    to_i32 (to_u64 (to_u64 availableSize - (sizeof_K + sizeof_size_t))) in
  let maxNumElements :=
    to_i32 (to_u64 availableSize / (sizeof_K + sizeof_size_t)) in
  let keyStart := Z.max sizeof_BTNodePageHeader sizeof_K in
  let keyEnd := to_i32 (to_u64 (keyStart + sizeof_K * to_u64 maxNumElements)) in
  let elementStart :=
    to_u64 (to_u64 keyEnd - to_u64 keyEnd mod sizeof_size_t
            + sizeof_size_t
              * (if bool_decide (to_u64 keyEnd mod sizeof_size_t <> 0) then 1 else 0)) in
  (maxNumElements, keyStart, elementStart).

Definition element_size (type : BTNodeType) : Z :=
  match type with E_INTERNAL => sizeof_pageId_t | E_LEAF => sizeof_V end.

(** [for (i = 0; i < count; ++i) p_children[i] = INVALID_PAGE_ID] with
    [count - i] iterations left. *)
Fixpoint init_children (left : nat) (children : Z) (i : Z) (buf : list Z)
  : option (list Z) :=
  match left with
  | O => Some buf
  | S left' =>
      buf' ← store buf (children + sizeof_pageId_t * i) sizeof_pageId_t INVALID_PAGE_ID;
      init_children left' children (i + 1) buf'
  end.

Definition result (A : Type) : Type := option (BufferPool.t * ErrorCode * A).

Definition btree_create_node (bp : BufferPool.t) (type : BTNodeType) (node : BTNode)
  : result BTNode :=
  let '(bp1, err, h) := alloc bp (m_handler node) in
  if negb (bool_decide (err = E_NO_ERROR)) then Some (bp1, err, node)
  else
    pg ← bp_pages bp1 !! m_pId h;
    let sizeOfElement := element_size type in
    let '(maxNumElements, keyStart, elementStart) := node_layout (getPageSize bp1) in
    let numElements := 0 in
    let hdr := mkHeader type maxNumElements numElements sizeof_K keyStart
                        sizeOfElement elementStart in
    buf1 ← memset (pg_bytes pg) keyStart 0 (to_u64 (sizeof_K * to_u64 maxNumElements));
    match type with
    | E_INTERNAL =>
        buf2 ← init_children (Z.to_nat (m_numElements hdr)) elementStart 0 buf1;
        Some (set_page bp1 (m_pId h) (mkPage hdr buf2), E_NO_ERROR,
              mkNode h (Some 0) (Some keyStart) (Some elementStart) (m_next node) false)
    | E_LEAF =>
        buf2 ← memset buf1 elementStart 0
                 (to_u64 (m_elementSize hdr * to_u64 maxNumElements));
        Some (set_page bp1 (m_pId h) (mkPage hdr buf2), E_NO_ERROR,
              mkNode h (Some 0) (Some keyStart) (Some elementStart) INVALID_PAGE_ID false)
    end.

Definition btree_create_internal (bp : BufferPool.t) (node : BTNode) : result BTNode :=
  btree_create_node bp E_INTERNAL node.

Definition btree_create_leaf (bp : BufferPool.t) (node : BTNode) : result BTNode :=
  btree_create_node bp E_LEAF node.

(** A failed [assert] ends the program: [None]. *)
Definition btree_load_node (bp : BufferPool.t) (pId : Z) (node : BTNode)
  : result BTNode :=
  if bool_decide (pId = INVALID_PAGE_ID) then None
  else
    let '(bp1, err, h) := pin bp pId (m_handler node) in
    if isError err then Some (bp1, err, node)
    else
      pg ← (bp_pages bp1 !! m_pId h : option Page);
      let hdr := pg_header pg in
      let sizeOfElement := element_size (m_type hdr) in
      if negb (bool_decide (m_keySize hdr = sizeof_K))
         || negb (bool_decide (m_elementSize hdr = sizeOfElement))
      then
        let bp2 := (unpin bp1 pId).1 in
        Some (bp2, E_BTREE_CORRUPTED_PAGE,
              mkNode h (Some 0) (p_keys node) (p_children_values node)
                     (m_next node) (m_dirty node))
      else
        Some (bp1, E_NO_ERROR,
              mkNode h (Some 0) (Some (m_keyStart hdr)) (Some (m_elementStart hdr))
                     (m_next node) false).

Definition nulled (node : BTNode) : BTNode :=
  mkNode (m_handler node) None None None (m_next node) (m_dirty node).

Definition btree_unload_node (bp : BufferPool.t) (node : BTNode)
  : BufferPool.t * ErrorCode * BTNode :=
  let '(bp1, err) :=
    if m_dirty node then setPageDirty bp (m_pId (m_handler node))
    else (bp, E_NO_ERROR) in
  if isError err then (bp1, err, node)
  else
    let '(bp2, err2) := unpin bp1 (m_pId (m_handler node)) in
    (bp2, err2, nulled node).

(** The page a node's pointers point into. *)
Definition page_of (bp : BufferPool.t) (node : BTNode) : option Page :=
  hp ← p_pageHeader node;
  if bool_decide (hp = 0) then bp_pages bp !! m_pId (m_handler node) else None.

(** [p_keys[i]], [p_children[i]], [p_values[i]] *)
Definition key_at (pg : Page) (node : BTNode) (i : Z) : option Z :=
  ks ← p_keys node; load (pg_bytes pg) (ks + sizeof_K * i) sizeof_K.
Definition child_at (pg : Page) (node : BTNode) (i : Z) : option Z :=
  cs ← p_children_values node;
  load (pg_bytes pg) (cs + sizeof_pageId_t * i) sizeof_pageId_t.
Definition value_at (pg : Page) (node : BTNode) (i : Z) : option Z :=
  vs ← p_children_values node; load (pg_bytes pg) (vs + sizeof_V * i) sizeof_V.

(** The loop of [btree_next_internal] at index [i], with
    [left = maxNumElements - 1 - i] indices still below the bound: the
    test [i < maxNumElements - 1] is [left] being a successor. *)
Fixpoint next_internal_loop (pg : Page) (node : BTNode) (key : Z)
    (left : nat) (i : Z) : option Z :=
  match left with
  | O => Some i
  | S left' =>
      c ← child_at pg node (i + 1);
      if bool_decide (c = INVALID_PAGE_ID) then Some i
      else
        k ← key_at pg node i;
        if bool_decide (key >= k) then next_internal_loop pg node key left' (i + 1)
        else Some i
  end.

Definition btree_next_internal (bp : BufferPool.t) (node : BTNode) (key : Z)
  : option Z :=
  pg ← page_of bp node;
  if negb (bool_decide (m_type (pg_header pg) = E_INTERNAL)) then None
  else
    let maxNumElements := m_maxNumElements (pg_header pg) in
    let numElements := m_numElements (pg_header pg) in
    if bool_decide (numElements <= 1) then Some 0
    else next_internal_loop pg node key (Z.to_nat (maxNumElements - 1)) 0.

(** The loop of [btree_next_leaf] at index [i], with
    [left = numElements - i]. *)
Fixpoint next_leaf_loop (pg : Page) (node : BTNode) (key : Z)
    (left : nat) (i : Z) : option Z :=
  match left with
  | O => Some i
  | S left' =>
      k ← key_at pg node i;
      if bool_decide (key > k) then next_leaf_loop pg node key left' (i + 1)
      else Some i
  end.

Definition btree_next_leaf (bp : BufferPool.t) (node : BTNode) (key : Z)
  : option Z :=
  pg ← page_of bp node;
  if negb (bool_decide (m_type (pg_header pg) = E_LEAF)) then None
  else next_leaf_loop pg node key (Z.to_nat (m_numElements (pg_header pg))) 0.

End Templates.

End BTree.

(** ** Vocabulary of the storage properties *)
Module StorageSpec.
Import CInt Bytes FStream FileStorage.

(** An open [FileStorage]: the store is open on [path] with a good
    stream, over a file that holds its configuration at the start, and
    [size()] counts the whole extents of that file. These are the states
    [create] leaves and [reserve], [write], and [close] followed by
    [open], keep. *)
Definition store_ok (fs : FileSystem) (s : t) (path : string) : Prop :=
  exists f q,
    m_file s = mkStream (Some path) q false
    /\ (path ∉ fs_denied fs)
    /\ fs_files fs !! path = Some f
    /\ wf_config (m_config s)
    /\ 0 < getExtentSize (m_config s)
    /\ Z.of_nat (length (m_extentFiller s)) = getExtentSize (m_config s)
    /\ 0 <= f_len f <= max_off
    /\ m_size s = f_len f / getExtentSize (m_config s)
    /\ Z.of_nat sizeof_config <= f_len f
    /\ file_read f 0 (Z.of_nat sizeof_config) = config_image (m_config s).
End StorageSpec.

(** ** Vocabulary of the tree properties *)
Module TreeSpec.
Import CInt Bytes Mem BufferPool BTree.

(** Two pools with the same frames and the same pin count on every
    page. *)
Definition same_pins (bp bp' : BufferPool.t) : Prop :=
  bp_pages bp' = bp_pages bp /\ forall p, pin_count bp' p = pin_count bp p.

Section Templates.
Context {T : Types}.

(** The layout as the specification words it, for key size [k] and
    element size [e]. *)
Definition round_up (x e : Z) : Z := (x + e - 1) / e * e.

Definition spec_layout (pageSize k e : Z) : Z * Z * Z :=
  let keyStart := Z.max sizeof_BTNodePageHeader k in
  let availableSize := pageSize - sizeof_BTNodePageHeader - (k + e) in
  let maxNumElements := availableSize / (k + e) in
  let keyEnd := keyStart + k * maxNumElements in
  let elementStart := round_up keyEnd e in
  (maxNumElements, keyStart, elementStart).

(** The node handle whose pointers are derived from the header of the
    page, as [btree_load_node] derives them. *)
Definition views (node : BTNode) (pId : Z) (pg : Page) : Prop :=
  m_handler node = mkHandler pId
  /\ p_pageHeader node = Some 0
  /\ p_keys node = Some (m_keyStart (pg_header pg))
  /\ p_children_values node = Some (m_elementStart (pg_header pg)).

(** The key and element arrays lie in the page buffer and the counters
    are consistent. *)
Definition node_in_bounds (pg : Page) (node : BTNode) : Prop :=
  let hdr := pg_header pg in
  exists ks es,
    p_keys node = Some ks /\ p_children_values node = Some es
    /\ 0 < sizeof_K /\ 0 < element_size (m_type hdr)
    /\ 0 < m_maxNumElements hdr
    /\ 0 <= m_numElements hdr <= m_maxNumElements hdr
    /\ in_range (pg_bytes pg) ks (sizeof_K * m_maxNumElements hdr)
    /\ in_range (pg_bytes pg) es (element_size (m_type hdr) * m_maxNumElements hdr).

(** The test of the loop of [btree_next_internal] at index [j]:
    [child[j+1] != INVALID_PAGE_ID] and [key >= keys[j]]. *)
Definition scan_test (pg : Page) (node : BTNode) (key j : Z) : bool :=
  match child_at pg node (j + 1), key_at pg node j with
  | Some c, Some k => negb (bool_decide (c = INVALID_PAGE_ID)) && bool_decide (key >= k)
  | _, _ => false
  end.

(** What the specification says [btree_next_internal] returns when
    [numElements > 1]: the largest [i] in [[0, maxNumElements - 2]] that
    passes the test. *)
Definition largest_passing (pg : Page) (node : BTNode) (key i : Z) : Prop :=
  0 <= i <= m_maxNumElements (pg_header pg) - 2
  /\ scan_test pg node key i = true
  /\ forall j, 0 <= j <= m_maxNumElements (pg_header pg) - 2 ->
               scan_test pg node key j = true -> j <= i.

(** What the loop computes: the least index at which the loop stops,
    the bound included. *)
Definition first_stop (pg : Page) (node : BTNode) (key r : Z) : Prop :=
  0 <= r <= m_maxNumElements (pg_header pg) - 1
  /\ (forall j, 0 <= j < r -> scan_test pg node key j = true)
  /\ (r < m_maxNumElements (pg_header pg) - 1 -> scan_test pg node key r = false).

(** The leftmost index [i < numElements] with [keys[i] >= key], else
    [numElements]. *)
Definition leftmost_ge (pg : Page) (node : BTNode) (key i : Z) : Prop :=
  0 <= i <= m_numElements (pg_header pg)
  /\ (forall j, 0 <= j < i -> exists k, key_at pg node j = Some k /\ k < key)
  /\ (i < m_numElements (pg_header pg) ->
      exists k, key_at pg node i = Some k /\ k >= key).

(** A page whose sizes are those of the instantiation. *)
Definition sizes_match (pg : Page) : Prop :=
  m_keySize (pg_header pg) = sizeof_K
  /\ m_elementSize (pg_header pg) = element_size (m_type (pg_header pg)).

(** The handle [btree_load_node] builds for page [pId]. *)
Definition loaded (pId : Z) (pg : Page) : BTNode :=
  mkNode (mkHandler pId) (Some 0) (Some (m_keyStart (pg_header pg)))
         (Some (m_elementStart (pg_header pg))) 0 false.
End Templates.
End TreeSpec.

(** ** Example stores and trees *)
Module StorageExamples.
Import FStream FileStorage.

Definition empty_fs : FileSystem := mkFS ∅ ∅.
Definition test_db : string := "./test.db".

(** A [FileStorage] just constructed. *)
Definition unopened : t := new (mkConfig 0) 0.

(** The file system and the store after
    [create("./test.db", {extentSizeKB}, true)]. *)
Definition created (extentSizeKB : Z) : FileSystem * t :=
  match create empty_fs unopened test_db (mkConfig extentSizeKB) true with
  | Some (fs, s, _, _) => (fs, s)
  | None => (empty_fs, unopened)
  end.

Definition zeros (n : nat) : list Z := replicate n 0.
End StorageExamples.

Module TreeExamples.
Import Bytes BufferPool BTree TreeSpec.

(** [K] and [V] of 8 bytes, of 8 and 4 bytes; the sentinel all ones, and
    zero. *)
Definition u64_u64 : Types := mkTypes 8 8 (2 ^ 64 - 1).
Definition u64_u32 : Types := mkTypes 8 4 (2 ^ 64 - 1).
Definition u64_u64_zero : Types := mkTypes 8 8 0.

Definition no_page : Z := 2 ^ 64 - 1.

Definition slots (vs : list Z) : list Z := concat (le_bytes 8 <$> vs).

(** A 128-byte page of four slots: header, keys at 48, elements at 80. *)
Definition small_page (type : BTNodeType) (n : Z) (keys elements : list Z) : Page :=
  mkPage (mkHeader type 4 n 8 48 8 80)
         (replicate 48 0 ++ slots keys ++ slots elements ++ replicate 16 0).

(** Root 1 with children 2 and 3 split at key 20; page 5 was written for
    4-byte keys. *)
Definition root_page : Page :=
  small_page E_INTERNAL 2 [20; 0; 0; 0] [2; 3; no_page; no_page].
Definition left_page : Page := small_page E_LEAF 2 [5; 10; 0; 0] [50; 100; 0; 0].
Definition right_page : Page := small_page E_LEAF 3 [20; 30; 40; 0] [200; 300; 400; 0].
Definition foreign_page : Page :=
  mkPage (mkHeader E_LEAF 4 0 4 48 8 80) (replicate 128 0).

Definition small_pages : gmap Z Page :=
  <[1 := root_page]> (<[2 := left_page]> (<[3 := right_page]> (<[5 := foreign_page]> ∅))).

Definition blank_header : BTNodePageHeader := mkHeader E_INTERNAL 0 0 0 0 0 0.

(** The pool, with one free frame filled with the byte [fill]. *)
Definition small_pool (fill : Z) : BufferPool.t :=
  mkPool 128 small_pages ∅ ∅ [(4, mkPage blank_header (replicate 128 fill))].

Definition root : BTNode := loaded 1 root_page.

(** A pool of 4 KiB pages with one free zeroed frame. *)
Definition pool_4k : BufferPool.t :=
  mkPool 4096 ∅ ∅ ∅ [(1, mkPage blank_header (replicate 4096 0))].
End TreeExamples.

(** ** What the store holds

    The bytes of an extent as the file has them, and a store whose file is
    exactly its extents. *)
Module StorageContents.
Import CInt Bytes FStream FileStorage StorageSpec.

(** The file at [path]; a path with no file reads as the empty file. *)
Definition file_at (fs : FileSystem) (path : string) : File :=
  default empty_file (fs_files fs !! path).

(** The bytes of extent [e] of the file at [path], for the extent size of
    configuration [c]. *)
Definition extent_bytes (fs : FileSystem) (path : string) (c : FileStorageConfig)
    (e : Z) : list Z :=
  file_read (file_at fs path) (e * getExtentSize c) (getExtentSize c).

(** A file holds no byte at or past its length. *)
Definition wf_file (f : File) : Prop :=
  forall i, f_len f <= i -> f_bytes f !! i = None.

(** The filler holds only zero bytes, as it does from construction on. *)
Definition zero_filled (s : t) : Prop :=
  m_extentFiller s = replicate (length (m_extentFiller s)) 0.

(** An open store over a file of whole extents, as [create] leaves it
    and [reserve] and [write] keep it. *)
Definition store_tidy (fs : FileSystem) (s : t) (path : string) : Prop :=
  store_ok fs s path
  /\ f_len (file_at fs path) = size s * getExtentSize (config s)
  /\ wf_file (file_at fs path)
  /\ zero_filled s.
End StorageContents.

(** ** What the tree holds

    The pairs a tree stores and the invariants under which the searches
    inside a node lead to them. *)
Module TreeContents.
Import CInt Bytes Mem BufferPool BTree TreeSpec.

(** Two pools with the same dirty set, free list and page size. *)
Definition untouched (bp bp' : BufferPool.t) : Prop :=
  bp_dirty bp' = bp_dirty bp /\ bp_free bp' = bp_free bp
  /\ bp_pageSize bp' = bp_pageSize bp.

Section Templates.
Context {T : Types}.

(** The pair [(key, v)] is stored in the subtree of height [h] rooted
    at page [pId]: in one of the first [numElements] slots of a leaf
    reached through child slots that are not [INVALID_PAGE_ID]. *)
Fixpoint stored (pages : gmap Z Page) (h : nat) (pId : Z) (key v : Z) : Prop :=
  match pages !! pId with
  | None => False
  | Some pg =>
      match h with
      | O =>
          m_type (pg_header pg) = E_LEAF
          /\ exists i, 0 <= i < m_numElements (pg_header pg)
                       /\ key_at pg (loaded pId pg) i = Some key
                       /\ value_at pg (loaded pId pg) i = Some v
      | S h' =>
          m_type (pg_header pg) = E_INTERNAL
          /\ exists i c, 0 <= i < m_maxNumElements (pg_header pg)
                         /\ child_at pg (loaded pId pg) i = Some c
                         /\ c <> INVALID_PAGE_ID
                         /\ stored pages h' c key v
      end
  end.

(** The first [m] keys of the node are strictly ascending. *)
Definition ascending (pg : Page) (node : BTNode) (m : Z) : Prop :=
  forall i j ki kj, 0 <= i < j -> j < m ->
                    key_at pg node i = Some ki -> key_at pg node j = Some kj -> ki < kj.

(** The first [numElements] child slots hold pages, the others
    [INVALID_PAGE_ID]. *)
Definition valid_prefix (pg : Page) (node : BTNode) : Prop :=
  forall i c, 0 <= i < m_maxNumElements (pg_header pg) ->
              child_at pg node i = Some c ->
              (c <> INVALID_PAGE_ID <-> i < m_numElements (pg_header pg)).

(** [key] belongs to child [i] of a node with [n] children: it is not
    below the separator before the child and is below the one after. *)
Definition in_child_range (pg : Page) (node : BTNode) (key i : Z) : Prop :=
  (forall k, 1 <= i -> key_at pg node (i - 1) = Some k -> k <= key)
  /\ (forall k, i < m_numElements (pg_header pg) - 1 ->
                key_at pg node i = Some k -> key < k).

(** The invariants of the data model under which a descent finds a key:
    every page of the tree resident with matching sizes and its arrays
    inside the buffer, all leaves at depth [h], keys strictly ascending
    within a node, the children of an internal node in its first
    [numElements] slots, and [keys[i]] separating what is stored under
    [child[i]] from what is stored under [child[i+1]]. *)
Inductive search_ok (pages : gmap Z Page) : nat -> Z -> Prop :=
  | search_leaf pId pg :
      pId <> INVALID_PAGE_ID ->
      pages !! pId = Some pg ->
      m_type (pg_header pg) = E_LEAF ->
      sizes_match pg ->
      node_in_bounds pg (loaded pId pg) ->
      ascending pg (loaded pId pg) (m_numElements (pg_header pg)) ->
      search_ok pages 0 pId
  | search_internal pId pg h :
      pId <> INVALID_PAGE_ID ->
      pages !! pId = Some pg ->
      m_type (pg_header pg) = E_INTERNAL ->
      sizes_match pg ->
      node_in_bounds pg (loaded pId pg) ->
      valid_prefix pg (loaded pId pg) ->
      ascending pg (loaded pId pg) (m_numElements (pg_header pg) - 1) ->
      (forall i c, 0 <= i < m_numElements (pg_header pg) ->
                   child_at pg (loaded pId pg) i = Some c ->
                   search_ok pages h c) ->
      (forall i c key v, 0 <= i < m_numElements (pg_header pg) ->
                         child_at pg (loaded pId pg) i = Some c ->
                         stored pages h c key v ->
                         in_child_range pg (loaded pId pg) key i) ->
      search_ok pages (S h) pId.
End Templates.
End TreeContents.

(** ** Destroying a node *)
Module NodeDestroy.
Import BufferPool BTree.

(** Modelled from the spec: [release] is a member of the buffer pool,
    which is not among the sources; it returns a page to the free list and
    returns an [ErrorCode]. The frame leaves the pages in use and joins the
    free list; a page the pool does not hold cannot be released. *)
Definition release (bp : BufferPool.t) (pId : Z) : BufferPool.t * ErrorCode :=
  match bp_pages bp !! pId with
  | Some pg =>
      (mkPool (bp_pageSize bp) (delete pId (bp_pages bp)) (bp_pins bp)
              (bp_dirty bp) (bp_free bp ++ [(pId, pg)]),
       E_NO_ERROR)
  | None => (bp, E_BUFPOOL_FAILURE)
  end.

(** [btree_destroy_node]: as [btree_unload_node], but an error of [unpin]
    is returned before the page is released and before the pointers are
    nulled. *)
Definition btree_destroy_node (bp : BufferPool.t) (node : BTNode)
  : BufferPool.t * ErrorCode * BTNode :=
  let '(bp1, err) :=
    if m_dirty node then setPageDirty bp (m_pId (m_handler node))
    else (bp, E_NO_ERROR) in
  if isError err then (bp1, err, node)
  else
    let '(bp2, err2) := unpin bp1 (m_pId (m_handler node)) in
    if isError err2 then (bp2, err2, node)
    else
      let '(bp3, err3) := release bp2 (m_pId (m_handler node)) in
      (bp3, err3, nulled node).
End NodeDestroy.

(** ** Member access in [btree_get]

    [btree_get] (lines 432 to 462) reaches into its node through an
    access operator and member names that [BTNode] does not have, so the
    template has no instance and the function no behaviour to embed. What
    can be read off the source is the static side: the classes the header
    declares with their members, the typing of [.], [->] and [[]] on
    them, and the member expressions of the function as they are written. *)
Module MemberAccess.

Inductive class_type : Type :=
  | BTNodePageHeader_t
  | BTNode_t
  | m_internal_t
  | m_leaf_t.

(** [Scalar] stands for the arithmetic and enumeration types and for [K],
    [V] and [pageId_t]; [Other] for [BufferHandler], which is declared
    outside the header. *)
Inductive type : Type :=
  | Class (c : class_type)
  | Pointer (t : type)
  | Scalar
  | Other.

(** [struct BTNodePageHeader] (lines 19 to 59) and [struct BTNode]
    (lines 64 to 122); the members of the anonymous union are members of
    [BTNode]. *)
Definition members (c : class_type) : list (string * type) :=
  match c with
  | BTNodePageHeader_t =>
      [("m_type", Scalar); ("m_maxNumElements", Scalar); ("m_numElements", Scalar);
       ("m_keySize", Scalar); ("m_keyStart", Scalar); ("m_elementSize", Scalar);
       ("m_elementStart", Scalar)]
  | BTNode_t =>
      [("m_handler", Other); ("p_pageHeader", Pointer (Class BTNodePageHeader_t));
       ("m_internal", Class m_internal_t); ("m_leaf", Class m_leaf_t);
       ("m_dirty", Scalar)]
  | m_internal_t => [("p_keys", Pointer Scalar); ("p_children", Pointer Scalar)]
  | m_leaf_t =>
      [("p_keys", Pointer Scalar); ("p_values", Pointer Scalar); ("m_next", Scalar)]
  end.

Definition declared (ds : list (string * type)) (x : string) : option type :=
  snd <$> List.find (fun d => bool_decide (d.1 = x)) ds.

Inductive expr : Type :=
  | Name (x : string)
  | Dot (e : expr) (m : string)
  | Arrow (e : expr) (m : string)
  | Subscript (e : expr).

(** The type of a member expression, [None] where it has none: [.] needs
    an object of class type, [->] and [[]] a pointer (no class of the
    header declares [operator->] or [operator[]]), and the member must be
    declared. *)
Fixpoint type_of (params : list (string * type)) (e : expr) : option type :=
  match e with
  | Name x => declared params x
  | Dot e m =>
      match type_of params e with
      | Some (Class c) => declared (members c) m
      | _ => None
      end
  | Arrow e m =>
      match type_of params e with
      | Some (Pointer (Class c)) => declared (members c) m
      | _ => None
      end
  | Subscript e =>
      match type_of params e with
      | Some (Pointer t) => Some t
      | _ => None
      end
  end.

(** [BTNode<K,V> node] (lines 409 and 434) and [const BTNode<K,V>& node]
    (line 376) name an object; [BTNode<K,V>* node] (lines 163, 266, 318
    and 348) a pointer. *)
Definition node_object : list (string * type) := [("node", Class BTNode_t)].
Definition node_pointer : list (string * type) := [("node", Pointer (Class BTNode_t))].

(** The member expressions of [btree_next_leaf] and of [btree_get], each
    with its line. *)
Definition btree_next_leaf_members : list (nat * expr) :=
  [(411%nat, Arrow (Dot (Name "node") "p_pageHeader") "m_type");
   (413%nat, Arrow (Dot (Name "node") "p_pageHeader") "m_maxNumElements");
   (414%nat, Arrow (Dot (Name "node") "p_pageHeader") "m_numElements");
   (417%nat, Subscript (Dot (Dot (Name "node") "m_leaf") "p_keys"))].

Definition btree_get_members : list (nat * expr) :=
  [(438%nat, Arrow (Dot (Name "node") "p_pageHeader") "m_type");
   (442%nat, Subscript (Dot (Arrow (Name "node") "m_internal") "m_children"));
   (455%nat, Arrow (Arrow (Name "node") "p_pageHeader") "m_numElements");
   (455%nat, Subscript (Dot (Arrow (Name "node") "m_leaf") "p_keys"));
   (456%nat, Subscript (Dot (Arrow (Name "node") "m_leaf") "m_leafs"))].

Definition typed (params : list (string * type)) (es : list (nat * expr))
  : list (nat * option type) :=
  (fun e => (e.1, type_of params e.2)) <$> es.

(** The statements of the [switch] of [btree_get], in its one block: a
    [case] label, a declaration with an initialiser, or another
    statement. *)
Inductive item : Type :=
  | Case
  | Initialised (x : string)
  | Statement.

Definition btree_get_switch : list (nat * item) :=
  [(440%nat, Case); (441%nat, Initialised "child_idx"); (442%nat, Initialised "childPage");
   (443%nat, Statement); (451%nat, Statement);
   (453%nat, Case); (454%nat, Initialised "i"); (455%nat, Statement);
   (459%nat, Statement)].

(** The [case] labels to which the jump from the [switch] bypasses
    declarations with an initialiser, with the variables bypassed. *)
Fixpoint bypassing (seen : list string) (l : list (nat * item))
  : list (nat * list string) :=
  match l with
  | [] => []
  | (n, Case) :: l' =>
      match seen with
      | [] => bypassing seen l'
      | _ => (n, seen) :: bypassing seen l'
      end
  | (_, Initialised x) :: l' => bypassing (seen ++ [x]) l'
  | (_, Statement) :: l' => bypassing seen l'
  end.
End MemberAccess.

(** ** Further example stores and pools *)
Module StorageScenarios.
Import FStream FileStorage StorageExamples.

(** The store of 1 KiB extents after [create] and [reserve(2, _)]:
    extents 0, 1 and 2. *)
Definition reserved : FileSystem * t :=
  match reserve (created 1).1 (created 1).2 2 0 with
  | Some (fs, s, _, _) => (fs, s)
  | None => created 1
  end.

Definition sevens : list Z := replicate 1024 7.

(** A file system with a two-byte file and a file of 2500 bytes that
    starts with the configuration record for 1 KiB extents. *)
Definition short_file : File := file_write empty_file 0 [1; 0].
Definition foreign_file : File :=
  file_write (file_write empty_file 0 [1; 0; 0; 0]) 2499 [9].
Definition other_fs : FileSystem :=
  mkFS (<["short" := short_file]> (<["foreign" := foreign_file]> ∅)) ∅.

(** A closed store that was configured for 1 KiB extents before. *)
Definition closed_1k : t := new (mkConfig 1) 0.

(** The three-extent store after [open("other.db")] was refused: the
    file is still open and the stream has failed. *)
Definition jammed : t :=
  match open reserved.1 reserved.2 "other.db" with
  | Some (_, s, _, _) => s
  | None => reserved.2
  end.
End StorageScenarios.

Module TreeScenarios.
Import Bytes BufferPool BTree TreeSpec TreeExamples.

(** The example pool with page 2 pinned once, and a handle on page 2
    that has been written through. *)
Definition pinned_pool : BufferPool.t := (pin (small_pool 0) 2 (mkHandler 0)).1.1.
Definition dirty_left : BTNode :=
  mkNode (mkHandler 2) (Some 0) (Some 48) (Some 80) 0 true.
(** A dirty handle on page 9, which the pool does not hold. *)
Definition dirty_stray : BTNode :=
  mkNode (mkHandler 9) (Some 0) (Some 48) (Some 80) 0 true.
End TreeScenarios.

(** * Properties *)

Module CIntFacts.
Import CInt.

Lemma to_u32_small z : 0 <= z < 2 ^ 32 -> to_u32 z = z.
Proof. intros. unfold to_u32. apply Z.mod_small; lia. Qed.

Lemma to_u64_small z : 0 <= z < 2 ^ 64 -> to_u64 z = z.
Proof. intros. unfold to_u64. apply Z.mod_small; lia. Qed.

Lemma to_i64_small z : - 2 ^ 63 <= z < 2 ^ 63 -> to_i64 z = z.
Proof. intros. unfold to_i64. rewrite Z.mod_small; lia. Qed.

Lemma to_i32_small z : - 2 ^ 31 <= z < 2 ^ 31 -> to_i32 z = z.
Proof. intros. unfold to_i32. rewrite Z.mod_small; lia. Qed.

Lemma to_u32_range z : 0 <= to_u32 z < 2 ^ 32.
Proof. unfold to_u32. apply Z.mod_pos_bound. lia. Qed.

Lemma to_u64_range z : 0 <= to_u64 z < 2 ^ 64.
Proof. unfold to_u64. apply Z.mod_pos_bound. lia. Qed.
End CIntFacts.

Module BytesFacts.
Import Bytes.

Lemma length_le_bytes n v : length (le_bytes n v) = n.
Proof. revert v. induction n as [|n IH]; intros v; simpl; [done|]. by rewrite IH. Qed.

Lemma le_value_le_bytes n v :
  0 <= v < 256 ^ Z.of_nat n -> le_value (le_bytes n v) = v.
Proof.
  revert v. induction n as [|n IH]; intros v Hv.
  - simpl in *. lia.
  - cbn [le_bytes le_value]. rewrite IH.
    + pose proof (Z.div_mod v 256). lia.
    + rewrite Nat2Z.inj_succ, Z.pow_succ_r in Hv by lia.
      split; [apply Z.div_pos; lia|]. apply Z.div_lt_upper_bound; lia.
Qed.

Lemma le_value_replicate_0 n : le_value (replicate n 0) = 0.
Proof. induction n as [|n IH]; simpl; [done|]. rewrite IH. done. Qed.

Lemma overlay_full src old : length src = length old -> overlay src old = src.
Proof.
  intros H. unfold overlay. rewrite drop_ge by lia. apply app_nil_r.
Qed.
End BytesFacts.

Module FStreamFacts.
Import FStream.

Lemma lookup_write_bytes data : forall pos m i,
  write_bytes pos data m !! i =
    if decide (pos <= i < pos + Z.of_nat (length data))
    then data !! Z.to_nat (i - pos) else m !! i.
Proof.
  induction data as [|b data IH]; intros pos m i; simpl.
  - case_decide; [lia|done].
  - rewrite IH. repeat case_decide; try lia.
    + replace (Z.to_nat (i - pos)) with (S (Z.to_nat (i - (pos + 1)))) by lia. done.
    + assert (i = pos) as -> by lia. rewrite lookup_insert_eq.
      by replace (pos - pos) with 0 by lia.
    + apply lookup_insert_ne. lia.
Qed.

Lemma file_read_length f pos n : length (file_read f pos n) = Z.to_nat n.
Proof. unfold file_read. by rewrite length_fmap, length_seqZ. Qed.

(** What was written is read back. *)
Lemma file_read_file_write f pos data :
  file_read (file_write f pos data) pos (Z.of_nat (length data)) = data.
Proof.
  apply list_eq. intros i. unfold file_read. rewrite list_lookup_fmap.
  destruct (decide (i < length data)%nat) as [Hi|Hi].
  - rewrite lookup_seqZ_lt by lia. simpl. unfold byte_at, file_write. simpl.
    rewrite lookup_write_bytes. case_decide; [|lia].
    replace (Z.to_nat (pos + (0 + Z.of_nat i) - pos)) with i by lia.
    destruct (lookup_lt_is_Some_2 data i Hi) as [x Hx]. by rewrite Hx.
  - rewrite lookup_seqZ_ge by lia. simpl. symmetry. apply lookup_ge_None. lia.
Qed.

(** A write elsewhere does not change what is read. *)
Lemma file_read_file_write_disjoint f pos data q n :
  q + n <= pos \/ pos + Z.of_nat (length data) <= q ->
  file_read (file_write f pos data) q n = file_read f q n.
Proof.
  intros Hd. unfold file_read. apply list_fmap_ext. intros i x Hx.
  apply lookup_seqZ in Hx as [-> Hi]. unfold byte_at, file_write. simpl.
  rewrite lookup_write_bytes. case_decide; [lia|done].
Qed.

Section good_stream.
Context (fs : FileSystem) (path : string) (f : File).
Hypothesis Hfile : fs_files fs !! path = Some f.

Lemma seek_good q off dir :
  let base := match dir with beg => 0 | cur => q | end_ => f_len f end in
  0 <= base + off <= max_off ->
  seek fs (mkStream (Some path) q false) off dir = mkStream (Some path) (base + off) false.
Proof.
  intros base H. unfold seek, seekoff, the_file. simpl. rewrite Hfile. simpl.
  fold base. by rewrite bool_decide_eq_true_2.
Qed.

Lemma tell_good q :
  0 <= q <= max_off -> tell fs (mkStream (Some path) q false) = q.
Proof.
  intros H. unfold tell, seekoff, the_file. simpl. rewrite Hfile. simpl.
  rewrite bool_decide_eq_true_2 by lia. lia.
Qed.

Lemma read_good q n :
  0 <= n -> q + n <= f_len f ->
  read fs (mkStream (Some path) q false) n
  = (mkStream (Some path) (q + n) false, file_read f q n).
Proof.
  intros Hn H. unfold read, the_file. simpl. rewrite Hfile. simpl.
  replace (n `min` (0 `max` (f_len f - q))) with n by lia.
  by rewrite bool_decide_eq_true_2.
Qed.

Lemma write_good q data :
  data <> [] -> q + Z.of_nat (length data) <= max_off ->
  write fs (mkStream (Some path) q false) data
  = (mkFS (<[path := file_write f q data]> (fs_files fs)) (fs_denied fs),
     mkStream (Some path) (q + Z.of_nat (length data)) false).
Proof.
  intros Hd H. unfold write. simpl.
  rewrite bool_decide_eq_false_2 by (destruct data; simpl in *; [done|lia]).
  rewrite Hfile. by rewrite bool_decide_eq_true_2.
Qed.
End good_stream.

(** Nothing can be sought, read or written on a stream with no file. *)
Lemma seek_closed fs q b off dir :
  failed (seek fs (mkStream None q b) off dir) = true.
Proof. unfold seek. simpl. by destruct b. Qed.
End FStreamFacts.

(** ** [FileStorage] *)
Module FileStorageFacts.
Import CInt Bytes FStream FileStorage StorageSpec StorageExamples.
Import CIntFacts BytesFacts FStreamFacts.

#[local] Arguments to_u64 : simpl never.
#[local] Arguments to_i64 : simpl never.
#[local] Arguments to_u32 : simpl never.
#[local] Arguments getExtentSize : simpl never.
#[local] Arguments Z.mul : simpl never.
#[local] Arguments Z.add : simpl never.
#[local] Arguments Z.sub : simpl never.
#[local] Arguments Z.div : simpl never.
#[local] Arguments Z.of_nat : simpl never.
#[local] Arguments Z.to_nat : simpl never.
#[local] Arguments file_write : simpl never.
#[local] Arguments file_read : simpl never.
#[local] Arguments take : simpl never.
#[local] Arguments replicate : simpl never.

Lemma getExtentSize_range c : 0 <= getExtentSize c < 2 ^ 32.
Proof. apply to_u32_range. Qed.

(** The extent size is a multiple of 1 KiB. *)
Lemma getExtentSize_ge c : 0 < getExtentSize c -> 1024 <= getExtentSize c.
Proof.
  unfold getExtentSize, to_u32.
  replace (2 ^ 32) with (2 ^ 22 * 1024) by reflexivity.
  rewrite Z.mul_mod_distr_r by lia.
  pose proof (Z.mod_pos_bound (m_extentSizeKB c) (2 ^ 22)). lia.
Qed.

Lemma max_off_eq : max_off = 2 ^ 63 - 1.
Proof. reflexivity. Qed.

Lemma length_resize v n : 0 <= n -> Z.of_nat (length (resize v n)) = n.
Proof.
  intros Hn. unfold resize. rewrite length_app, length_take, length_replicate. lia.
Qed.

Lemma bytesToExtent_pos c b :
  0 < getExtentSize c -> bytesToExtent c b = Some (b / getExtentSize c).
Proof. intros H. unfold bytesToExtent. rewrite bool_decide_eq_false_2 by lia. done. Qed.

(** [reserve] on a good stream, when the grown file fits the offset type. *)
Lemma reserve_good fs path f q cfg sz filler n e0 :
  let E := getExtentSize cfg in
  fs_files fs !! path = Some f ->
  0 <= f_len f -> 0 < E -> Z.of_nat (length filler) = E ->
  1 <= n < 2 ^ 32 -> f_len f + n * E <= max_off ->
  reserve fs (mkStorage (mkStream (Some path) q false) cfg sz filler) n e0
  = Some (mkFS (<[path := file_write f (f_len f + (n - 1) * E) filler]> (fs_files fs))
               (fs_denied fs),
          mkStorage (mkStream (Some path) (f_len f + n * E) false) cfg
                    (f_len f / E + n) filler,
          E_NO_ERROR, f_len f / E).
Proof.
  intros E Hf Hlen HE Hfill Hn Hfit. pose proof (getExtentSize_range cfg) as HEr.
  fold E in HEr. rewrite max_off_eq in Hfit.
  unfold reserve, seekp, tellp. simpl.
  rewrite (seek_good fs path f Hf q 0 end_) by (simpl; rewrite max_off_eq; nia).
  simpl. rewrite (tell_good fs path f Hf) by (rewrite max_off_eq; nia).
  rewrite to_u64_small by nia. rewrite bytesToExtent_pos by done. simpl.
  unfold extentToBytes. fold E.
  rewrite (to_u32_small (n - 1)) by lia.
  rewrite to_u64_small by nia. rewrite to_i64_small by nia.
  rewrite (seek_good fs path f Hf _ _ end_) by (simpl; rewrite max_off_eq; nia).
  rewrite (write_good fs path f Hf).
  2:{ intros ->. simpl in Hfill. lia. }
  2:{ rewrite max_off_eq. nia. }
  simpl.
  set (fs' := mkFS _ _).
  assert (Hf' : fs_files fs' !! path
                = Some (file_write f (f_len f + (n - 1) * E) filler))
    by (subst fs'; simpl; apply lookup_insert_eq).
  rewrite Hfill.
  rewrite (tell_good fs' path _ Hf') by (rewrite max_off_eq; nia).
  rewrite to_u64_small by nia. rewrite bytesToExtent_pos by done. simpl.
  fold E. unfold with_size, with_file. simpl.
  replace (f_len f + (n - 1) * E + E) with (f_len f + n * E) by lia.
  rewrite Z.div_add by lia. rewrite Z.add_0_r. done.
Qed.

(** [reserve] keeps a store open and well-formed. *)
Lemma reserve_ok fs s path n e0 :
  store_ok fs s path -> 1 <= n < 2 ^ 32 ->
  (size s + n + 1) * getExtentSize (config s) <= max_off ->
  exists fs' s',
    reserve fs s n e0 = Some (fs', s', E_NO_ERROR, size s)
    /\ size s' = size s + n /\ config s' = config s /\ store_ok fs' s' path.
Proof.
  intros (f & q & Hs & Hden & Hf & Hwf & HE & Hfill & Hlen & Hsz & Hhdr & Himg) Hn Hfit.
  destruct s as [mf cfg sz filler]. unfold size, config in *. simpl in *. subst mf.
  pose proof (getExtentSize_ge cfg HE) as HE'.
  assert (f_len f + n * getExtentSize cfg <= max_off) as Hfit'.
  { pose proof (Z.mul_div_le (f_len f) (getExtentSize cfg) HE).
    pose proof (Z.mod_pos_bound (f_len f) (getExtentSize cfg) HE).
    pose proof (Z.div_mod (f_len f) (getExtentSize cfg)). subst sz. nia. }
  eexists _, _. split.
  { rewrite (reserve_good fs path f) by (try done; lia). rewrite <- Hsz. reflexivity. }
  simpl. split; [lia|]. split; [done|].
  eexists _, _. simpl. split; [reflexivity|]. split; [done|].
  split; [apply lookup_insert_eq|]. split; [done|]. split; [done|]. split; [done|].
  unfold file_write. simpl. rewrite Hfill. rewrite max_off_eq in *.
  split; [lia|]. split.
  { replace (f_len f `max` (f_len f + (n - 1) * getExtentSize cfg + getExtentSize cfg))
      with (f_len f + n * getExtentSize cfg) by nia.
    rewrite Z.div_add by lia. lia. }
  split; [lia|].
  rewrite <- Himg. apply (file_read_file_write_disjoint f). left. nia.
Qed.

(** A [create] that reports success leaves a well-formed open store of
    one extent, holding the configuration it was given. *)
Lemma create_inv fs s path cfg overwrite fs1 s1 :
  wf_config cfg ->
  create fs s path cfg overwrite = Some (fs1, s1, E_NO_ERROR, ()) ->
  store_ok fs1 s1 path /\ config s1 = cfg /\ size s1 = 1.
Proof.
  intros Hwf. unfold create.
  destruct (negb overwrite && readable fs path); [intros [=]|].
  unfold FStream.open. destruct (is_open (m_file s)) eqn:Hopen; [intros [=]|].
  destruct (bool_decide (path ∈ fs_denied fs)) eqn:Hden; [intros [=]|].
  apply bool_decide_eq_false in Hden. simpl.
  set (fs0 := mkFS _ _).
  assert (Hf0 : fs_files fs0 !! path = Some empty_file) by apply lookup_insert_eq.
  destruct (decide (getExtentSize cfg = 0)) as [HE0|HE0].
  { unfold reserve. simpl. unfold seekp.
    rewrite (seek_good fs0 path _ Hf0 _ _ end_) by (simpl; rewrite max_off_eq; lia).
    simpl. unfold bytesToExtent. simpl. rewrite bool_decide_eq_true_2 by done.
    intros [=]. }
  pose proof (getExtentSize_range cfg) as HEr.
  assert (0 < getExtentSize cfg) as HE by lia.
  pose proof (getExtentSize_ge cfg HE) as HE'.
  rewrite (reserve_good fs0 path empty_file); simpl; try done; try lia.
  2:{ apply length_resize. lia. }
  2:{ rewrite max_off_eq. lia. }
  set (f1 := file_write _ _ _). set (fs2 := mkFS _ _).
  assert (Hf1 : fs_files fs2 !! path = Some f1) by apply lookup_insert_eq.
  assert (Hlen1 : f_len f1 = getExtentSize cfg).
  { subst f1. unfold file_write. simpl. rewrite length_resize by lia. lia. }
  unfold seekp. rewrite (seek_good fs2 path f1 Hf1 _ _ beg) by (simpl; rewrite max_off_eq; lia).
  rewrite (write_good fs2 path f1 Hf1) by (try done; simpl; rewrite max_off_eq; lia).
  simpl. intros [= <- <-]. unfold size, config. simpl. split; [|split; [done|]].
  2:{ rewrite Z.div_0_l by lia. done. }
  eexists _, _. simpl. split; [reflexivity|]. split; [done|].
  split; [apply lookup_insert_eq|]. split; [done|]. split; [done|].
  split; [apply length_resize; lia|].
  assert (Hlen2 : f_len (file_write f1 (0 + 0) (config_image cfg)) = getExtentSize cfg).
  { unfold file_write. simpl. rewrite length_resize by lia. lia. }
  rewrite Hlen2, max_off_eq. split; [lia|]. split.
  { rewrite Z.div_0_l, Z_div_same_full by lia. done. }
  split; [unfold sizeof_config; lia|].
  replace (Z.of_nat sizeof_config) with (Z.of_nat (length (config_image cfg)))
    by (unfold config_image; by rewrite length_le_bytes).
  apply file_read_file_write.
Qed.

Lemma config_image_inv c : wf_config c -> config_of_image (config_image c) = c.
Proof.
  intros Hwf. destruct c as [kb]. unfold config_of_image, config_image.
  cbn [m_extentSizeKB]. f_equal. apply le_value_le_bytes.
  unfold wf_config, is_u32 in Hwf. cbn [m_extentSizeKB] in Hwf.
  change (256 ^ Z.of_nat sizeof_config) with (2 ^ 32). lia.
Qed.

(** Closing a well-formed open store and opening its path again gives
    the same configuration and size. *)
Lemma close_open fs s path :
  store_ok fs s path ->
  exists s1 s2,
    close fs s = (fs, s1, E_NO_ERROR)
    /\ is_open (m_file s1) = None
    /\ open fs s1 path = Some (fs, s2, E_NO_ERROR, ())
    /\ config s2 = config s /\ size s2 = size s /\ store_ok fs s2 path.
Proof.
  intros (f & q & Hs & Hden & Hf & Hwf & HE & Hfill & Hlen & Hsz & Hhdr & Himg).
  destruct s as [mf cfg sz filler]. unfold size, config in *. simpl in *. subst mf.
  eexists _, _. split; [reflexivity|]. split; [done|].
  assert (Hopen : open fs (with_file (mkStorage (mkStream (Some path) q false) cfg sz filler)
                             (FStream.close (mkStream (Some path) q false))) path
                  = Some (fs, mkStorage (mkStream (Some path) (f_len f) false) cfg sz
                                        (resize filler (getExtentSize cfg)),
                          E_NO_ERROR, ())).
  { unfold open, FStream.open. simpl.
    rewrite bool_decide_eq_false_2 by done. rewrite Hf. simpl.
    unfold seekg. rewrite (seek_good fs path f Hf _ _ beg) by (simpl; rewrite max_off_eq; lia).
    rewrite (read_good fs path f Hf) by lia. simpl.
    replace (0 + 0) with 0 by lia. rewrite Himg.
    rewrite overlay_full by done. rewrite config_image_inv by done.
    rewrite (seek_good fs path f Hf _ _ end_) by (simpl; lia). simpl.
    unfold tellg. rewrite (tell_good fs path f Hf) by lia.
    rewrite max_off_eq in Hlen. rewrite to_u64_small by lia.
    rewrite bytesToExtent_pos by done. simpl. rewrite Z.add_0_r, <- Hsz. done. }
  split; [exact Hopen|]. simpl. split; [done|]. split; [done|].
  exists f, (f_len f). simpl. rewrite length_resize by lia. done.
Qed.

(** Any store object with no file open that opens the file of an open
    store reads that store's configuration from the file and counts the
    same extents, whatever configuration and size the object held. *)
Lemma open_other_object fs s path s0 :
  store_ok fs s path ->
  is_open (m_file s0) = None ->
  exists s3,
    open fs s0 path = Some (fs, s3, E_NO_ERROR, ())
    /\ config s3 = config s /\ size s3 = size s /\ store_ok fs s3 path.
Proof.
  intros (f & q & Hs & Hden & Hf & Hwf & HE & Hfill & Hlen & Hsz & Hhdr & Himg) Hclosed.
  destruct s as [mf cfg sz filler]. unfold size, config in *. simpl in *. subst mf.
  destruct s0 as [[o q0 b0] cfg0 sz0 filler0]. simpl in Hclosed. subst o.
  assert (Hopen : open fs (mkStorage (mkStream None q0 b0) cfg0 sz0 filler0) path
                  = Some (fs, mkStorage (mkStream (Some path) (f_len f) false) cfg sz
                                        (resize filler0 (getExtentSize cfg)),
                          E_NO_ERROR, ())).
  { unfold open, FStream.open. simpl.
    rewrite bool_decide_eq_false_2 by done. rewrite Hf. simpl.
    unfold seekg. rewrite (seek_good fs path f Hf _ _ beg) by (simpl; rewrite max_off_eq; lia).
    rewrite (read_good fs path f Hf) by lia. simpl.
    replace (0 + 0) with 0 by lia. rewrite Himg.
    rewrite overlay_full by (unfold config_image; by rewrite !length_le_bytes).
    rewrite config_image_inv by done.
    rewrite (seek_good fs path f Hf _ _ end_) by (simpl; lia). simpl.
    unfold tellg. rewrite (tell_good fs path f Hf) by lia.
    rewrite max_off_eq in Hlen. rewrite to_u64_small by lia.
    rewrite bytesToExtent_pos by done. simpl. rewrite Z.add_0_r, <- Hsz. done. }
  eexists. split; [exact Hopen|]. simpl. split; [done|]. split; [done|].
  exists f, (f_len f). simpl. rewrite length_resize by lia. done.
Qed.

(** Reading or writing an extent that lies in the store succeeds. *)
Lemma read_in_range fs s path data extent :
  store_ok fs s path -> 1 <= extent < size s ->
  getExtentSize (config s) <= Z.of_nat (length data) ->
  exists s' data', read fs s data extent = Some (fs, s', E_NO_ERROR, data').
Proof.
  intros (f & q & Hs & Hden & Hf & Hwf & HE & Hfill & Hlen & Hsz & Hhdr & Himg) He Hd.
  destruct s as [mf cfg sz filler]. unfold size, config in *. simpl in *. subst mf.
  rewrite max_off_eq in Hlen.
  pose proof (Z.mul_div_le (f_len f) (getExtentSize cfg) HE) as Hle.
  assert ((extent + 1) * getExtentSize cfg <= f_len f) as Hin by (subst sz; nia).
  unfold read. simpl.
  rewrite bool_decide_eq_false_2, bool_decide_eq_false_2 by lia. simpl.
  unfold extentToBytes. rewrite to_u64_small by nia. rewrite to_i64_small by nia.
  unfold seekg. rewrite (seek_good fs path f Hf _ _ beg) by (simpl; rewrite max_off_eq; nia).
  simpl. rewrite (read_good fs path f Hf) by nia.
  rewrite bool_decide_eq_false_2 by (rewrite file_read_length; lia). simpl.
  eauto.
Qed.

Lemma write_in_range fs s path data extent :
  store_ok fs s path -> 1 <= extent < size s ->
  getExtentSize (config s) <= Z.of_nat (length data) ->
  exists fs' s', write fs s data extent = Some (fs', s', E_NO_ERROR, ())
                 /\ size s' = size s /\ config s' = config s /\ store_ok fs' s' path.
Proof.
  intros (f & q & Hs & Hden & Hf & Hwf & HE & Hfill & Hlen & Hsz & Hhdr & Himg) He Hd.
  destruct s as [mf cfg sz filler]. unfold size, config in *. simpl in *. subst mf.
  rewrite max_off_eq in Hlen. pose proof (getExtentSize_ge cfg HE) as HE'.
  pose proof (Z.mul_div_le (f_len f) (getExtentSize cfg) HE) as Hle.
  assert ((extent + 1) * getExtentSize cfg <= f_len f) as Hin by (subst sz; nia).
  unfold write. simpl.
  rewrite bool_decide_eq_false_2, bool_decide_eq_false_2 by lia. simpl.
  unfold extentToBytes. rewrite to_u64_small by nia. rewrite to_i64_small by nia.
  unfold seekp. rewrite (seek_good fs path f Hf _ _ beg) by (simpl; rewrite max_off_eq; nia).
  simpl. rewrite bool_decide_eq_false_2 by lia.
  assert (Z.of_nat (length (take (Z.to_nat (getExtentSize cfg)) data)) = getExtentSize cfg)
    as Htake by (rewrite length_take; lia).
  rewrite (write_good fs path f Hf).
  2:{ intros Hnil. rewrite Hnil in Htake. simpl in Htake. lia. }
  2:{ rewrite Htake, max_off_eq. nia. }
  simpl. eexists _, _. split; [reflexivity|]. simpl. split; [done|]. split; [done|].
  eexists _, _. simpl. split; [reflexivity|]. split; [done|].
  split; [apply lookup_insert_eq|]. split; [done|]. split; [done|]. split; [done|].
  unfold file_write. simpl. rewrite Htake, max_off_eq.
  replace (f_len f `max` (0 + extent * getExtentSize cfg + getExtentSize cfg))
    with (f_len f) by nia.
  split; [lia|]. split; [done|]. split; [done|].
  rewrite <- Himg. apply (file_read_file_write_disjoint f). left.
  unfold sizeof_config. nia.
Qed.

(** Without an open file neither operation gets past its seek. *)
Lemma read_no_file fs s data extent :
  is_open (m_file s) = None ->
  exists s', read fs s data extent = Some (fs, s', E_STORAGE_OUT_OF_BOUNDS_EXTENT, data).
Proof.
  intros Hno. unfold read.
  destruct (bool_decide (extent = 0) || bool_decide (extent >= m_size s)); [eauto|].
  destruct (m_file s) as [o q b]. simpl in Hno. subst o.
  unfold seekg. rewrite seek_closed. eauto.
Qed.

Lemma write_no_file fs s data extent :
  is_open (m_file s) = None ->
  exists s', write fs s data extent = Some (fs, s', E_STORAGE_OUT_OF_BOUNDS_EXTENT, ()).
Proof.
  intros Hno. unfold write.
  destruct (bool_decide (extent = 0) || bool_decide (extent >= m_size s)); [eauto|].
  destruct (m_file s) as [o q b]. simpl in Hno. subst o.
  unfold seekp. rewrite seek_closed. eauto.
Qed.

Lemma read_frame fs s data extent fs' s' r data' :
  read fs s data extent = Some (fs', s', r, data') ->
  size s' = size s /\ config s' = config s /\ r <> E_STORAGE_NOT_OPEN.
Proof.
  unfold read. intros H.
  repeat match type of H with
         | context [if ?b then _ else _] => destruct b
         | context [let '(_, _) := ?p in _] => destruct p
         end; simplify_eq; done.
Qed.

Lemma write_frame fs s data extent fs' s' r :
  write fs s data extent = Some (fs', s', r, ()) ->
  size s' = size s /\ config s' = config s /\ r <> E_STORAGE_NOT_OPEN.
Proof.
  unfold write. intros H.
  repeat match type of H with
         | context [if ?b then _ else _] => destruct b
         | context [let '(_, _) := ?p in _] => destruct p
         end; simplify_eq; done.
Qed.

Lemma created_eq kb :
  match create empty_fs unopened test_db (mkConfig kb) true with
  | Some (_, _, r, _) => r = E_NO_ERROR
  | None => False
  end ->
  create empty_fs unopened test_db (mkConfig kb) true
  = Some ((created kb).1, (created kb).2, E_NO_ERROR, ()).
Proof.
  unfold created.
  destruct (create empty_fs unopened test_db (mkConfig kb) true)
    as [[[[fs s] r] []]|]; [intros ->; reflexivity | intros []].
Qed.

Lemma created_1_ok : store_ok (created 1).1 (created 1).2 test_db.
Proof.
  refine (proj1 (create_inv empty_fs unopened test_db (mkConfig 1) true _ _ _ _)).
  - unfold wf_config, is_u32. simpl. lia.
  - apply created_eq. vm_compute. reflexivity.
Qed.

(** After [create], [reserve(1)], [reserve(1)], [reserve(4)], [reserve(1)]
    return 1, 2, 3, 7 and the size is 8, for any extent size. *)
Lemma reserve_sequence fs s path cfg overwrite fs1 s1 e0 :
  wf_config cfg ->
  create fs s path cfg overwrite = Some (fs1, s1, E_NO_ERROR, ()) ->
  exists fs2 s2 fs3 s3 fs4 s4 fs5 s5,
    reserve fs1 s1 1 e0 = Some (fs2, s2, E_NO_ERROR, 1)
    /\ reserve fs2 s2 1 1 = Some (fs3, s3, E_NO_ERROR, 2)
    /\ reserve fs3 s3 4 2 = Some (fs4, s4, E_NO_ERROR, 3)
    /\ reserve fs4 s4 1 3 = Some (fs5, s5, E_NO_ERROR, 7)
    /\ size s5 = 8.
Proof.
  intros Hwf Hc. destruct (create_inv _ _ _ _ _ _ _ Hwf Hc) as (Hok1 & Hcfg1 & Hsz1).
  pose proof (getExtentSize_range cfg) as HE.
  destruct (reserve_ok fs1 s1 path 1 e0 Hok1) as (fs2 & s2 & H2 & Hsz2 & Hcfg2 & Hok2);
    [lia| rewrite Hcfg1, Hsz1, max_off_eq; lia |].
  destruct (reserve_ok fs2 s2 path 1 1 Hok2) as (fs3 & s3 & H3 & Hsz3 & Hcfg3 & Hok3);
    [lia| rewrite Hcfg2, Hcfg1, Hsz2, Hsz1, max_off_eq; lia |].
  destruct (reserve_ok fs3 s3 path 4 2 Hok3) as (fs4 & s4 & H4 & Hsz4 & Hcfg4 & Hok4);
    [lia| rewrite Hcfg3, Hcfg2, Hcfg1, Hsz3, Hsz2, Hsz1, max_off_eq; lia |].
  destruct (reserve_ok fs4 s4 path 1 3 Hok4) as (fs5 & s5 & H5 & Hsz5 & Hcfg5 & Hok5);
    [lia| rewrite Hcfg4, Hcfg3, Hcfg2, Hcfg1, Hsz4, Hsz3, Hsz2, Hsz1, max_off_eq; lia |].
  exists fs2, s2, fs3, s3, fs4, s4, fs5, s5.
  rewrite Hsz1 in *. rewrite Hsz2 in *. rewrite Hsz3 in *. rewrite Hsz4 in *.
  simpl in *. repeat split; try done.
Qed.

(** C1: evaluated on the store that [create] leaves with 1 KiB extents,
    [reserve(0, extent)] succeeds, sets [extent] to 1, the size before the
    call, and leaves [size()] at 2^32 + 1 instead of 1: [numExtents - 1]
    wraps around to 2^32 - 1. *)
Theorem reserve_zero_extents_grows_the_store :
  size (created 1).2 = 1
  /\ match reserve (created 1).1 (created 1).2 0 0 with
     | Some (_, s', r, extent) =>
         r = E_NO_ERROR /\ extent = 1 /\ size s' = 2 ^ 32 + 1
     | None => False
     end.
Proof. vm_compute. repeat split. Qed.

(** C2, amended: on a store that is open on its file with a good stream,
    [read] and [write] of an extent return
    [E_STORAGE_OUT_OF_BOUNDS_EXTENT] exactly when the extent is 0 or is not
    below [size()]; for extent 0 they return it and change nothing. *)
Theorem read_write_out_of_bounds_extent fs s path data extent :
  store_ok fs s path ->
  getExtentSize (config s) <= Z.of_nat (length data) ->
  0 <= extent ->
  (exists s' r data',
      read fs s data extent = Some (fs, s', r, data')
      /\ (r = E_STORAGE_OUT_OF_BOUNDS_EXTENT <-> extent = 0 \/ extent >= size s))
  /\ (exists fs' s' r,
      write fs s data extent = Some (fs', s', r, ())
      /\ (r = E_STORAGE_OUT_OF_BOUNDS_EXTENT <-> extent = 0 \/ extent >= size s))
  /\ read fs s data 0 = Some (fs, s, E_STORAGE_OUT_OF_BOUNDS_EXTENT, data)
  /\ write fs s data 0 = Some (fs, s, E_STORAGE_OUT_OF_BOUNDS_EXTENT, ()).
Proof.
  intros Hok Hd He.
  destruct (decide (extent = 0 \/ extent >= size s)) as [Hout|Hin].
  - assert (bool_decide (extent = 0) || bool_decide (extent >= m_size s) = true) as Hb.
    { apply orb_true_iff. destruct Hout; [left|right]; by apply bool_decide_eq_true. }
    split; [|split].
    + exists s, E_STORAGE_OUT_OF_BOUNDS_EXTENT, data. unfold read. by rewrite Hb.
    + exists fs, s, E_STORAGE_OUT_OF_BOUNDS_EXTENT. unfold write. by rewrite Hb.
    + done.
  - assert (1 <= extent < size s) as Hr by lia.
    destruct (read_in_range fs s path data extent Hok Hr Hd) as (s1 & d1 & Hread).
    destruct (write_in_range fs s path data extent Hok Hr Hd) as (fs2 & s2 & Hwrite & _).
    split; [|split].
    + exists s1, E_NO_ERROR, d1. split; [done|]. split; [discriminate|tauto].
    + exists fs2, s2, E_NO_ERROR. split; [done|]. split; [discriminate|tauto].
    + done.
Qed.

(** C8: after a successful [create(path, config, overwrite)] the file
    holds the configuration record at its start; [close()] succeeds, and
    then [open(path)] from any store object with no file open, the one
    just closed or another with a configuration of its own, succeeds and
    reads that record: [config()] is the configuration given to [create],
    in particular its [m_extentSizeKB], and [size()] is 1. *)
Theorem create_close_open_config fs s path cfg overwrite fs1 s1 :
  wf_config cfg ->
  create fs s path cfg overwrite = Some (fs1, s1, E_NO_ERROR, ()) ->
  (exists f, fs_files fs1 !! path = Some f
             /\ file_read f 0 (Z.of_nat sizeof_config) = config_image cfg)
  /\ exists s2,
      close fs1 s1 = (fs1, s2, E_NO_ERROR)
      /\ is_open (m_file s2) = None
      /\ forall s0, is_open (m_file s0) = None ->
           exists s3,
             open fs1 s0 path = Some (fs1, s3, E_NO_ERROR, ())
             /\ config s3 = cfg
             /\ m_extentSizeKB (config s3) = m_extentSizeKB cfg
             /\ size s3 = 1
             /\ store_ok fs1 s3 path.
Proof.
  intros Hwf Hc. destruct (create_inv _ _ _ _ _ _ _ Hwf Hc) as (Hok & Hcfg & Hsz).
  split.
  - destruct Hok as (f & q & _ & _ & Hf & _ & _ & _ & _ & _ & _ & Himg).
    exists f. split; [done|]. by rewrite Himg, <- Hcfg.
  - destruct (close_open fs1 s1 path Hok) as (s2 & _ & Hclose & Hclosed & _).
    exists s2. split; [done|]. split; [done|]. intros s0 H0.
    destruct (open_other_object fs1 s1 path s0 Hok H0) as (s3 & Hopen & Hc3 & Hs3 & Hok3).
    exists s3. rewrite Hc3, Hs3, Hcfg. done.
Qed.

Lemma create_close_open_config_witness :
  (exists f, fs_files (created 4).1 !! test_db = Some f
             /\ file_read f 0 (Z.of_nat sizeof_config) = config_image (mkConfig 4))
  /\ exists s2 s3,
      close (created 4).1 (created 4).2 = ((created 4).1, s2, E_NO_ERROR)
      /\ config StorageScenarios.closed_1k = mkConfig 1
      /\ open (created 4).1 StorageScenarios.closed_1k test_db
         = Some ((created 4).1, s3, E_NO_ERROR, ())
      /\ config s3 = mkConfig 4
      /\ size s3 = 1.
Proof.
  destruct (create_close_open_config empty_fs unopened test_db (mkConfig 4) true
              (created 4).1 (created 4).2) as [Hfile (s2 & Hclose & _ & Hany)].
  - unfold wf_config, is_u32. simpl. lia.
  - apply created_eq. vm_compute. reflexivity.
  - split; [exact Hfile|].
    destruct (Hany StorageScenarios.closed_1k eq_refl) as (s3 & Hopen & Hcfg & _ & Hsz & _).
    exists s2, s3. split; [exact Hclose|]. split; [reflexivity|].
    split; [exact Hopen|]. split; [exact Hcfg|exact Hsz].
Defined.

(** C9, as stated, fails on a store just constructed: no file is open,
    [close()] returns [E_NO_ERROR], and [read] and [write] return
    [E_STORAGE_OUT_OF_BOUNDS_EXTENT]. *)
Lemma close_without_open_file :
  is_open (m_file unopened) = None
  /\ (close empty_fs unopened).2 = E_NO_ERROR
  /\ match read empty_fs unopened [] 1 with
     | Some (_, _, r, _) => r = E_STORAGE_OUT_OF_BOUNDS_EXTENT
     | None => False
     end
  /\ match write empty_fs unopened [] 1 with
     | Some (_, _, r, _) => r = E_STORAGE_OUT_OF_BOUNDS_EXTENT
     | None => False
     end.
Proof. vm_compute. repeat split. Qed.

(** C9, amended: [close()] on a store [s] with an open file and a good
    stream closes the file and returns [E_NO_ERROR], and the path can be
    opened again; on a store [s0] with no open file [read] and [write]
    return [E_STORAGE_OUT_OF_BOUNDS_EXTENT]; and on any store [s1] they
    never return [E_STORAGE_NOT_OPEN]. *)
Theorem close_reopen_and_io_without_file fs s path s0 s1 data extent :
  store_ok fs s path ->
  is_open (m_file s0) = None ->
  (exists s_closed s_reopened,
      close fs s = (fs, s_closed, E_NO_ERROR)
      /\ is_open (m_file s_closed) = None
      /\ open fs s_closed path = Some (fs, s_reopened, E_NO_ERROR, ())
      /\ store_ok fs s_reopened path)
  /\ (exists s', read fs s0 data extent
                 = Some (fs, s', E_STORAGE_OUT_OF_BOUNDS_EXTENT, data))
  /\ (exists s', write fs s0 data extent
                 = Some (fs, s', E_STORAGE_OUT_OF_BOUNDS_EXTENT, ()))
  /\ (forall fs' s' r data', read fs s1 data extent = Some (fs', s', r, data') ->
                             r <> E_STORAGE_NOT_OPEN)
  /\ (forall fs' s' r, write fs s1 data extent = Some (fs', s', r, ()) ->
                       r <> E_STORAGE_NOT_OPEN).
Proof.
  intros Hok Hno. split; [|split; [|split; [|split]]].
  - destruct (close_open fs s path Hok) as (sc & so & ? & ? & ? & _ & _ & ?). eauto 10.
  - by apply read_no_file.
  - by apply write_no_file.
  - intros fs' s' r d' H. by apply read_frame in H as (_ & _ & ?).
  - intros fs' s' r H. by apply write_frame in H as (_ & _ & ?).
Qed.

Lemma close_reopen_and_io_without_file_witness :
  (exists s1 s2,
      close (created 1).1 (created 1).2 = ((created 1).1, s1, E_NO_ERROR)
      /\ is_open (m_file s1) = None
      /\ open (created 1).1 s1 test_db = Some ((created 1).1, s2, E_NO_ERROR, ())
      /\ store_ok (created 1).1 s2 test_db)
  /\ (exists s', read (created 1).1 unopened (zeros 1024) 1
                 = Some ((created 1).1, s', E_STORAGE_OUT_OF_BOUNDS_EXTENT, zeros 1024))
  /\ (exists s', write (created 1).1 unopened (zeros 1024) 1
                 = Some ((created 1).1, s', E_STORAGE_OUT_OF_BOUNDS_EXTENT, ())).
Proof.
  destruct (close_reopen_and_io_without_file (created 1).1 (created 1).2 test_db
              unopened unopened (zeros 1024) 1) as (H1 & H2 & H3 & _).
  - apply created_1_ok.
  - reflexivity.
  - auto.
Defined.

(** C10: whatever [read] or [write] returns, [size()] and [config()] are
    afterwards what they were before the call. *)
Theorem read_write_preserve_size_config fs s data extent :
  (forall fs' s' r data',
      read fs s data extent = Some (fs', s', r, data') ->
      size s' = size s /\ config s' = config s)
  /\ (forall fs' s' r,
      write fs s data extent = Some (fs', s', r, ()) ->
      size s' = size s /\ config s' = config s).
Proof.
  split.
  - intros fs' s' r d' H. apply read_frame in H. tauto.
  - intros fs' s' r H. apply write_frame in H. tauto.
Qed.

Lemma read_write_preserve_size_config_witness :
  match read (created 1).1 (created 1).2 (zeros 1024) 1 with
  | Some (_, s', _, _) => size s' = 1 /\ config s' = mkConfig 1
  | None => False
  end
  /\ match write (created 1).1 (created 1).2 (zeros 1024) 7 with
     | Some (_, s', _, _) => size s' = 1 /\ config s' = mkConfig 1
     | None => False
     end.
Proof.
  pose proof (read_write_preserve_size_config (created 1).1 (created 1).2 (zeros 1024) 1)
    as [Hr _].
  pose proof (read_write_preserve_size_config (created 1).1 (created 1).2 (zeros 1024) 7)
    as [_ Hw].
  assert (is_Some (read (created 1).1 (created 1).2 (zeros 1024) 1)) as [x Hx]
    by (apply (bool_decide_unpack _); vm_compute; exact I).
  assert (is_Some (write (created 1).1 (created 1).2 (zeros 1024) 7)) as [y Hy]
    by (apply (bool_decide_unpack _); vm_compute; exact I).
  rewrite Hx, Hy. destruct x as [[[fs' s'] r] d'], y as [[[fs'' s''] r'] []].
  split.
  - destruct (Hr _ _ _ _ Hx) as [-> ->]. split; vm_compute; reflexivity.
  - destruct (Hw _ _ _ Hy) as [-> ->]. split; vm_compute; reflexivity.
Defined.
End FileStorageFacts.

(** ** Page buffers *)
Module MemFacts.
Import Bytes Mem BytesFacts.

Lemma length_splice buf off src :
  (Z.to_nat off + length src <= length buf)%nat ->
  length (splice buf off src) = length buf.
Proof.
  intros H. unfold splice. rewrite !length_app, length_take, length_drop. lia.
Qed.

Lemma lookup_splice buf off src i :
  (Z.to_nat off + length src <= length buf)%nat ->
  splice buf off src !! i =
    if decide (Z.to_nat off <= i < Z.to_nat off + length src)%nat
    then src !! (i - Z.to_nat off)%nat else buf !! i.
Proof.
  intros H. unfold splice. case_decide as Hi.
  - rewrite lookup_app_r by (rewrite length_take; lia).
    rewrite length_take, lookup_app_l by lia. f_equal. lia.
  - destruct (decide (i < Z.to_nat off)%nat).
    + rewrite lookup_app_l by (rewrite length_take; lia). by apply lookup_take_lt.
    + rewrite lookup_app_r by (rewrite length_take; lia).
      rewrite length_take, lookup_app_r by lia.
      rewrite lookup_drop. f_equal. lia.
Qed.

(** A slot of an array that lies in the buffer can be loaded. *)
Lemma in_range_slot buf base w count i :
  in_range buf base (w * count) -> 0 < w -> 0 <= i < count ->
  in_range buf (base + w * i) w.
Proof. unfold in_range. intros (? & ? & ?) ? ?. nia. Qed.

Lemma load_slot buf base w count i :
  in_range buf base (w * count) -> 0 < w -> 0 <= i < count ->
  is_Some (load buf (base + w * i) w).
Proof.
  intros. unfold load. rewrite decide_True by (by eapply in_range_slot). eauto.
Qed.

(** Bytes set to zero load as zero. *)
Lemma load_memset_inside buf off n buf' o w :
  memset buf off 0 n = Some buf' ->
  off <= o -> 0 <= w -> o + w <= off + n ->
  load buf' o w = Some 0.
Proof.
  unfold memset. case_decide as Hr; [|done]. intros [= <-] Ho Hw Hin.
  destruct Hr as (? & ? & ?).
  assert (Hlen : length (splice buf off (replicate (Z.to_nat n) 0)) = length buf)
    by (apply length_splice; rewrite length_replicate; lia).
  unfold load. rewrite decide_True by (unfold in_range; rewrite Hlen; lia).
  f_equal. etrans; [|apply (le_value_replicate_0 (Z.to_nat w))]. f_equal.
  apply list_eq. intros i. destruct (decide (i < Z.to_nat w)%nat).
  - rewrite lookup_take_lt, lookup_drop by done.
    rewrite lookup_splice by (rewrite length_replicate; lia).
    rewrite length_replicate, decide_True by lia.
    rewrite !lookup_replicate_2 by lia. done.
  - rewrite lookup_take_ge by lia. symmetry. apply lookup_replicate_None. lia.
Qed.

(** Bytes outside a written range load as before. *)
Lemma load_splice_outside buf off src o w :
  (Z.to_nat off + length src <= length buf)%nat -> 0 <= off ->
  o + w <= off \/ off + Z.of_nat (length src) <= o ->
  load (splice buf off src) o w = load buf o w.
Proof.
  intros Hfit Hoff Hout. unfold load.
  pose proof (length_splice buf off src Hfit) as Hlen.
  destruct (decide (in_range (splice buf off src) o w)) as [Hr|Hr],
           (decide (in_range buf o w)) as [Hr'|Hr'];
    unfold in_range in Hr, Hr'; rewrite ?Hlen in Hr; try done.
  f_equal. f_equal.
  apply list_eq. intros i. destruct (decide (i < Z.to_nat w)%nat).
  - rewrite !lookup_take_lt, !lookup_drop by done.
    rewrite lookup_splice by done. rewrite decide_False by lia. done.
  - by rewrite !lookup_take_ge by lia.
Qed.
End MemFacts.

(** ** B+tree nodes *)
Module BTreeFacts.
Import CInt Bytes Mem BufferPool BTree TreeSpec TreeExamples.
Import CIntFacts BytesFacts MemFacts.

Section Scans.
Context {T : Types}.

Lemma key_at_in_bounds pg node i :
  node_in_bounds pg node -> 0 <= i < m_maxNumElements (pg_header pg) ->
  is_Some (key_at pg node i).
Proof.
  intros (ks & es & Hk & He & ? & ? & ? & ? & Hkr & Her) Hi.
  unfold key_at. rewrite Hk. simpl. by eapply load_slot.
Qed.

Lemma child_at_in_bounds pg node i :
  node_in_bounds pg node -> m_type (pg_header pg) = E_INTERNAL ->
  0 <= i < m_maxNumElements (pg_header pg) ->
  is_Some (child_at pg node i).
Proof.
  intros (ks & es & Hk & He & ? & ? & ? & ? & Hkr & Her) Hty Hi.
  unfold child_at. rewrite He. simpl. rewrite Hty in *. simpl in *.
  by eapply load_slot.
Qed.

Lemma value_at_in_bounds pg node i :
  node_in_bounds pg node -> m_type (pg_header pg) = E_LEAF ->
  0 <= i < m_maxNumElements (pg_header pg) ->
  is_Some (value_at pg node i).
Proof.
  intros (ks & es & Hk & He & ? & ? & ? & ? & Hkr & Her) Hty Hi.
  unfold value_at. rewrite He. simpl. rewrite Hty in *. simpl in *.
  by eapply load_slot.
Qed.

(** The loop of [btree_next_internal] stops at the first index that
    fails the test or reaches the bound. *)
Lemma next_internal_loop_stops pg node key left : forall i,
  (forall j, i <= j < i + Z.of_nat left ->
             is_Some (child_at pg node (j + 1)) /\ is_Some (key_at pg node j)) ->
  exists r,
    next_internal_loop pg node key left i = Some r
    /\ i <= r <= i + Z.of_nat left
    /\ (forall j, i <= j < r -> scan_test pg node key j = true)
    /\ (r < i + Z.of_nat left -> scan_test pg node key r = false).
Proof.
  induction left as [|left IH]; intros i Hrd.
  - exists i. simpl. repeat split; lia.
  - destruct (Hrd i) as [[c Hc] [k Hk]]; [lia|].
    cbn [next_internal_loop]. rewrite Hc. simpl.
    destruct (decide (c = INVALID_PAGE_ID)) as [Hinv|Hval].
    + rewrite bool_decide_eq_true_2 by done. exists i.
      repeat split; try lia. intros _. unfold scan_test.
      rewrite Hc, Hk, bool_decide_eq_true_2 by done. done.
    + rewrite bool_decide_eq_false_2 by done. rewrite Hk. simpl.
      destruct (decide (key >= k)) as [Hge|Hlt].
      * rewrite bool_decide_eq_true_2 by done.
        destruct (IH (i + 1)) as (r & Hr & Hb & Hpass & Hstop).
        { intros j Hj. apply Hrd. lia. }
        exists r. split; [done|]. split; [lia|]. split.
        -- intros j Hj. destruct (decide (j = i)) as [->|].
           ++ unfold scan_test.
              rewrite Hc, Hk, bool_decide_eq_false_2, bool_decide_eq_true_2 by done.
              done.
           ++ apply Hpass. lia.
        -- intros. apply Hstop. lia.
      * rewrite bool_decide_eq_false_2 by done. exists i.
        repeat split; try lia. intros _. unfold scan_test.
        rewrite Hc, Hk. rewrite (bool_decide_eq_false_2 (key >= k)) by done.
        apply andb_false_r.
Qed.

(** The loop of [btree_next_leaf] stops at the first key that is not
    below [key], or at the count. *)
Lemma next_leaf_loop_stops pg node key left : forall i,
  (forall j, i <= j < i + Z.of_nat left -> is_Some (key_at pg node j)) ->
  exists r,
    next_leaf_loop pg node key left i = Some r
    /\ i <= r <= i + Z.of_nat left
    /\ (forall j, i <= j < r -> exists k, key_at pg node j = Some k /\ k < key)
    /\ (r < i + Z.of_nat left -> exists k, key_at pg node r = Some k /\ k >= key).
Proof.
  induction left as [|left IH]; intros i Hrd.
  - exists i. simpl. repeat split; lia.
  - destruct (Hrd i) as [k Hk]; [lia|].
    cbn [next_leaf_loop]. rewrite Hk. simpl.
    destruct (decide (key > k)) as [Hgt|Hle].
    + rewrite bool_decide_eq_true_2 by done.
      destruct (IH (i + 1)) as (r & Hr & Hb & Hbelow & Hstop).
      { intros j Hj. apply Hrd. lia. }
      exists r. split; [done|]. split; [lia|]. split.
      * intros j Hj. destruct (decide (j = i)) as [->|].
        -- exists k. split; [done|lia].
        -- apply Hbelow. lia.
      * intros. apply Hstop. lia.
    + rewrite bool_decide_eq_false_2 by done. exists i.
      split; [done|]. split; [lia|]. split; [intros; lia|].
      intros _. exists k. split; [done|lia].
Qed.
End Scans.

Section Pins.
Context {T : Types}.

Lemma next_internal_stops bp node key pg :
  page_of bp node = Some pg ->
  m_type (pg_header pg) = E_INTERNAL ->
  node_in_bounds pg node ->
  exists r, btree_next_internal bp node key = Some r
            /\ 0 <= r < m_maxNumElements (pg_header pg)
            /\ (m_numElements (pg_header pg) <= 1 -> r = 0)
            /\ (1 < m_numElements (pg_header pg) -> first_stop pg node key r).
Proof.
  intros Hpg Hty Hb. unfold btree_next_internal. rewrite Hpg. simpl.
  rewrite Hty. simpl.
  pose proof Hb as (ks & es & Hk & He & ? & ? & Hmax & Hn & _).
  destruct (decide (m_numElements (pg_header pg) <= 1)) as [Hle|Hgt].
  - rewrite bool_decide_eq_true_2 by done. exists 0. repeat split; lia.
  - rewrite bool_decide_eq_false_2 by done.
    destruct (next_internal_loop_stops pg node key
                (Z.to_nat (m_maxNumElements (pg_header pg) - 1)) 0)
      as (r & Hr & Hrb & Hpass & Hstop).
    { intros j Hj. split.
      - apply child_at_in_bounds; [done|done|lia].
      - apply key_at_in_bounds; [done|lia]. }
    exists r. split; [done|]. split; [lia|]. split; [lia|]. intros _.
    split; [lia|]. split; [intros; apply Hpass; lia|]. intros; apply Hstop; lia.
Qed.

Lemma next_leaf_leftmost bp node key pg :
  page_of bp node = Some pg ->
  m_type (pg_header pg) = E_LEAF ->
  node_in_bounds pg node ->
  exists i, btree_next_leaf bp node key = Some i /\ leftmost_ge pg node key i.
Proof.
  intros Hpg Hty Hb. unfold btree_next_leaf. rewrite Hpg. simpl. rewrite Hty. simpl.
  pose proof Hb as (ks & es & Hk & He & ? & ? & Hmax & Hn & _).
  destruct (next_leaf_loop_stops pg node key
              (Z.to_nat (m_numElements (pg_header pg))) 0)
    as (r & Hr & Hrb & Hbelow & Hstop).
  { intros j Hj. apply key_at_in_bounds; [done|lia]. }
  exists r. split; [done|]. split; [lia|].
  split; [intros; apply Hbelow; lia|]. intros; apply Hstop; lia.
Qed.

Lemma same_pins_refl bp : same_pins bp bp.
Proof. by split. Qed.

Lemma pin_count_insert sz pages pins dirty free pId n p :
  pin_count (mkPool sz pages (<[pId := n]> pins) dirty free) p
  = if decide (p = pId) then n else default 0%nat (pins !! p).
Proof.
  unfold pin_count. simpl. case_decide as Hp.
  - subst. by rewrite lookup_insert_eq.
  - by rewrite lookup_insert_ne.
Qed.

Lemma pin_present bp pId h pg :
  bp_pages bp !! pId = Some pg ->
  exists bp1,
    pin bp pId h = (bp1, E_NO_ERROR, mkHandler pId)
    /\ bp_pages bp1 = bp_pages bp
    /\ pin_count bp1 pId = S (pin_count bp pId)
    /\ (forall p, p <> pId -> pin_count bp1 p = pin_count bp p).
Proof.
  intros Hpg. unfold pin. rewrite Hpg. eexists. split; [reflexivity|].
  split; [done|]. split.
  - by rewrite pin_count_insert, decide_True.
  - intros p Hp. by rewrite pin_count_insert, decide_False.
Qed.

Lemma pin_absent bp pId h :
  bp_pages bp !! pId = None -> pin bp pId h = (bp, E_BUFPOOL_FAILURE, h).
Proof. intros Hpg. unfold pin. by rewrite Hpg. Qed.

(** Dropping a pin that is held. *)
Lemma unpin_pinned bp pId n :
  pin_count bp pId = S n ->
  exists bp2,
    unpin bp pId = (bp2, E_NO_ERROR)
    /\ bp_pages bp2 = bp_pages bp
    /\ pin_count bp2 pId = n
    /\ (forall p, p <> pId -> pin_count bp2 p = pin_count bp p).
Proof.
  intros Hn. unfold unpin. rewrite Hn. eexists. split; [reflexivity|].
  split; [done|]. split.
  - by rewrite pin_count_insert, decide_True.
  - intros p Hp. by rewrite pin_count_insert, decide_False.
Qed.

Lemma same_pins_pin_unpin bp bp1 bp2 bp3 pId n :
  bp_pages bp1 = bp_pages bp ->
  pin_count bp1 pId = S (pin_count bp pId) ->
  (forall p, p <> pId -> pin_count bp1 p = pin_count bp p) ->
  same_pins bp1 bp2 ->
  unpin bp2 pId = (bp3, n) ->
  same_pins bp bp3.
Proof.
  intros Hpages Hpid Hothers [Hpages2 Hpins2] Hunpin.
  destruct (unpin_pinned bp2 pId (pin_count bp pId)) as (bp3' & Hu & Hp3 & Hc3 & Ho3).
  { by rewrite Hpins2. }
  rewrite Hu in Hunpin. injection Hunpin as <- <-. split; [congruence|].
  intros p. destruct (decide (p = pId)) as [->|Hne]; [done|].
  rewrite Ho3, Hpins2, Hothers by done. done.
Qed.

(** What [btree_load_node] returns, by whether the page is resident and
    whether its sizes match. *)
Lemma load_node_absent bp pId node :
  pId <> INVALID_PAGE_ID -> bp_pages bp !! pId = None ->
  btree_load_node bp pId node = Some (bp, E_BUFPOOL_FAILURE, node).
Proof.
  intros Hne Hpg. unfold btree_load_node.
  rewrite bool_decide_eq_false_2 by done. by rewrite pin_absent.
Qed.

Lemma load_node_mismatch bp pId node pg :
  pId <> INVALID_PAGE_ID -> bp_pages bp !! pId = Some pg -> ~ sizes_match pg ->
  exists bp' node',
    btree_load_node bp pId node = Some (bp', E_BTREE_CORRUPTED_PAGE, node')
    /\ same_pins bp bp'.
Proof.
  intros Hne Hpg Hmis. unfold btree_load_node.
  rewrite bool_decide_eq_false_2 by done.
  destruct (pin_present bp pId (m_handler node) pg Hpg) as (bp1 & Hpin & Hp1 & Hc1 & Ho1).
  rewrite Hpin. simpl. rewrite Hp1, Hpg. simpl.
  assert (negb (bool_decide (m_keySize (pg_header pg) = sizeof_K))
          || negb (bool_decide (m_elementSize (pg_header pg)
                                = element_size (m_type (pg_header pg)))) = true) as ->.
  { unfold sizes_match in Hmis. apply orb_true_iff.
    destruct (decide (m_keySize (pg_header pg) = sizeof_K)).
    - right. rewrite bool_decide_eq_false_2; [done|]. tauto.
    - left. by rewrite bool_decide_eq_false_2. }
  eexists _, _. split; [reflexivity|].
  destruct (unpin bp1 pId) as [bp2 e] eqn:Hu. simpl.
  eapply same_pins_pin_unpin; eauto using same_pins_refl.
Qed.

Lemma load_node_match bp pId node pg :
  pId <> INVALID_PAGE_ID -> bp_pages bp !! pId = Some pg -> sizes_match pg ->
  exists bp1,
    btree_load_node bp pId node
    = Some (bp1, E_NO_ERROR,
            mkNode (mkHandler pId) (Some 0) (Some (m_keyStart (pg_header pg)))
                   (Some (m_elementStart (pg_header pg))) (m_next node) false)
    /\ bp_pages bp1 = bp_pages bp
    /\ pin_count bp1 pId = S (pin_count bp pId)
    /\ (forall p, p <> pId -> pin_count bp1 p = pin_count bp p).
Proof.
  intros Hne Hpg [Hk He]. unfold btree_load_node.
  rewrite bool_decide_eq_false_2 by done.
  destruct (pin_present bp pId (m_handler node) pg Hpg) as (bp1 & Hpin & Hp1 & Hc1 & Ho1).
  rewrite Hpin. simpl. rewrite Hp1, Hpg. simpl.
  rewrite !bool_decide_eq_true_2 by done. simpl. eauto.
Qed.

(** [btree_unload_node] of a clean node drops its pin. *)
Lemma unload_clean bp node :
  m_dirty node = false ->
  (btree_unload_node bp node).1.1 = (unpin bp (m_pId (m_handler node))).1.
Proof.
  intros Hd. unfold btree_unload_node. rewrite Hd. simpl.
  by destruct (unpin bp (m_pId (m_handler node))).
Qed.

End Pins.

Section Lookup.
Context {T : Types}.

(** The node functions read a handle only through its pointers. *)
Lemma views_page_of bp node pId pg :
  views node pId pg -> bp_pages bp !! pId = Some pg -> page_of bp node = Some pg.
Proof.
  intros (Hh & Hp & _) Hpg. unfold page_of. rewrite Hp, Hh. simpl. done.
Qed.

Lemma views_key_at node pId pg i :
  views node pId pg -> key_at pg node i = key_at pg (loaded pId pg) i.
Proof. intros (_ & _ & Hk & _). unfold key_at. by rewrite Hk. Qed.

Lemma views_child_at node pId pg i :
  views node pId pg -> child_at pg node i = child_at pg (loaded pId pg) i.
Proof. intros (_ & _ & _ & He). unfold child_at. by rewrite He. Qed.

Lemma views_in_bounds node pId pg :
  views node pId pg -> node_in_bounds pg (loaded pId pg) -> node_in_bounds pg node.
Proof.
  intros (_ & _ & Hk & He) (ks & es & Hk' & He' & Hrest).
  exists ks, es. rewrite Hk, He. done.
Qed.

Lemma views_loaded pId pg : views (loaded pId pg) pId pg.
Proof. done. Qed.

End Lookup.

Lemma small_in_bounds type n keys elements :
  0 <= n <= 4 -> length keys = 4%nat -> length elements = 4%nat ->
  @node_in_bounds u64_u64 (small_page type n keys elements)
                  (loaded 1 (small_page type n keys elements)).
Proof.
  intros Hn Hk He.
  assert (length (slots keys) = 32%nat) as Hsk.
  { destruct keys as [|? [|? [|? [|? [|]]]]]; try done. }
  assert (length (slots elements) = 32%nat) as Hse.
  { destruct elements as [|? [|? [|? [|? [|]]]]]; try done. }
  assert (length (pg_bytes (small_page type n keys elements)) = 128%nat) as Hlen.
  { unfold small_page. cbn [pg_bytes].
    rewrite !length_app, Hsk, Hse, !length_replicate. done. }
  exists 48, 80. unfold in_range. rewrite Hlen.
  destruct type; simpl; repeat split; try done; try lia.
Qed.

Section Claims.
Context {T : Types}.

(** C4, amended: [btree_next_internal] returns 0 when
    [numElements <= 1]; otherwise it returns the least [i] in
    [[0, maxNumElements - 1]] at which the scan stops, that is
    [i = maxNumElements - 1] or [child[i+1] = INVALID_PAGE_ID] or
    [key < keys[i]], every index below [i] passing the test. *)
Theorem next_internal_first_stop bp node key pg :
  page_of bp node = Some pg ->
  m_type (pg_header pg) = E_INTERNAL ->
  node_in_bounds pg node ->
  (m_numElements (pg_header pg) <= 1 -> btree_next_internal bp node key = Some 0)
  /\ (1 < m_numElements (pg_header pg) ->
      exists r, btree_next_internal bp node key = Some r /\ first_stop pg node key r).
Proof.
  intros Hpg Hty Hb.
  destruct (next_internal_stops bp node key pg Hpg Hty Hb) as (r & Hr & _ & H0 & H1).
  split.
  - intros Hle. by rewrite Hr, (H0 Hle).
  - intros Hgt. eauto.
Qed.

End Claims.

(** C4, as stated, fails on the root of the example tree: with two
    children and key 25 the code returns 1, which does not pass the
    test, and the largest index that passes the test is 0. *)
Lemma next_internal_is_not_largest_passing :
  m_numElements (pg_header root_page) = 2
  /\ @btree_next_internal u64_u64 (small_pool 0) root 25 = Some 1
  /\ @largest_passing u64_u64 root_page root 25 0
  /\ ~ @largest_passing u64_u64 root_page root 25 1.
Proof.
  split; [reflexivity|]. split; [vm_compute; reflexivity|]. split.
  - split; [simpl; lia|]. split; [vm_compute; reflexivity|].
    intros j Hj Hp. simpl in Hj.
    assert (j = 0 \/ j = 1 \/ j = 2) as [-> | [-> | ->]] by lia;
      [lia | vm_compute in Hp; discriminate | vm_compute in Hp; discriminate].
  - intros (_ & Hp & _). vm_compute in Hp. discriminate.
Qed.

Lemma next_internal_first_stop_witness :
  (m_numElements (pg_header root_page) <= 1 ->
   @btree_next_internal u64_u64 (small_pool 0) root 25 = Some 0)
  /\ (1 < m_numElements (pg_header root_page) ->
      exists r, @btree_next_internal u64_u64 (small_pool 0) root 25 = Some r
                /\ @first_stop u64_u64 root_page root 25 r).
Proof.
  apply (@next_internal_first_stop u64_u64 (small_pool 0) root 25 root_page).
  - reflexivity.
  - reflexivity.
  - apply (small_in_bounds E_INTERNAL 2); [lia | reflexivity | reflexivity].
Defined.

Section Layout.
Context {T : Types}.

(** Where the element is as wide as [size_t] the layout is the one the
    specification gives. *)
Lemma node_layout_size_t pageSize :
  0 < sizeof_K ->
  sizeof_BTNodePageHeader + sizeof_K + sizeof_size_t <= pageSize < 2 ^ 31 ->
  node_layout pageSize = spec_layout pageSize sizeof_K sizeof_size_t.
Proof.
  intros Hk HP. unfold node_layout, spec_layout, round_up.
  unfold sizeof_BTNodePageHeader, sizeof_size_t in *.
  set (k := sizeof_K) in *.
  rewrite (to_u64_small (pageSize - 48)) by lia.
  rewrite (to_i32_small (pageSize - 48)) by lia.
  rewrite (to_u64_small (pageSize - 48)) by lia.
  rewrite (to_u64_small (pageSize - 48 - (k + 8))) by lia.
  rewrite (to_i32_small (pageSize - 48 - (k + 8))) by lia.
  rewrite (to_u64_small (pageSize - 48 - (k + 8))) by lia.
  set (a := pageSize - 48 - (k + 8)).
  assert (0 <= a / (k + 8)) as Hm0 by (apply Z.div_pos; lia).
  assert ((k + 8) * (a / (k + 8)) <= a) as Hm1 by (apply Z.mul_div_le; lia).
  set (m := a / (k + 8)) in *.
  rewrite (to_i32_small m) by nia.
  rewrite (to_u64_small m) by nia.
  set (keyEnd := 48 `max` k + k * m).
  assert (0 <= keyEnd < 2 ^ 31) as Hke by (subst keyEnd a; nia).
  rewrite (to_u64_small keyEnd) by lia.
  rewrite (to_i32_small keyEnd) by lia.
  rewrite (to_u64_small keyEnd) by lia.
  f_equal.
  case_bool_decide as Hr.
  - rewrite to_u64_small by (Z.to_euclidean_division_equations; lia).
    Z.to_euclidean_division_equations; lia.
  - rewrite to_u64_small by (Z.to_euclidean_division_equations; lia).
    Z.to_euclidean_division_equations; lia.
Qed.
End Layout.

#[local] Arguments node_layout : simpl never.
#[local] Arguments to_u64 : simpl never.
#[local] Arguments memset : simpl never.
#[local] Arguments Z.mul : simpl never.

Section Creation.
Context {T : Types}.

Lemma round_up_ge x e : 0 < e -> x <= round_up x e.
Proof. intros He. unfold round_up. Z.to_euclidean_division_equations. nia. Qed.

(** What [btree_create_node] leaves in the node and in its page: an empty
    clean node with zeroed keys; for a leaf zeroed values and no next leaf;
    for an internal node the child slots as the frame had them. *)
Lemma create_node_initialises bp type node bp' node' :
  0 < sizeof_K -> 0 < sizeof_V < 2 ^ 31 ->
  sizeof_BTNodePageHeader + sizeof_K + sizeof_size_t <= getPageSize bp < 2 ^ 31 ->
  btree_create_node bp type node = Some (bp', E_NO_ERROR, node') ->
  exists pId pg0 rest pg,
    bp_free bp = (pId, pg0) :: rest
    /\ m_handler node' = mkHandler pId
    /\ bp_pages bp' !! pId = Some pg
    /\ m_type (pg_header pg) = type
    /\ m_numElements (pg_header pg) = 0
    /\ m_dirty node' = false
    /\ (forall i, 0 <= i < m_maxNumElements (pg_header pg) -> key_at pg node' i = Some 0)
    /\ match type with
       | E_LEAF =>
           m_next node' = INVALID_PAGE_ID
           /\ forall i, 0 <= i < m_maxNumElements (pg_header pg) ->
                        value_at pg node' i = Some 0
       | E_INTERNAL =>
           forall i, 0 <= i -> child_at pg node' i = child_at pg0 node' i
       end.
Proof.
  intros Hk Hv HP. unfold btree_create_node, alloc.
  destruct (bp_free bp) as [|[pId pg0] rest] eqn:Hfree; [intros [=]|].
  cbv beta iota. rewrite bool_decide_eq_true_2 by done. cbn [negb].
  unfold getPageSize in *. cbn [bp_pageSize bp_pages m_pId].
  rewrite lookup_insert_eq. rewrite node_layout_size_t by done.
  unfold spec_layout. simpl.
  unfold sizeof_BTNodePageHeader, sizeof_size_t in *.
  set (k := sizeof_K) in *. set (P := bp_pageSize bp) in *.
  set (a := P - 48 - (k + 8)).
  assert (0 <= a / (k + 8)) as Hm0 by (apply Z.div_pos; lia).
  assert ((k + 8) * (a / (k + 8)) <= a) as Hm1 by (apply Z.mul_div_le; lia).
  set (m := a / (k + 8)) in *.
  set (ks := 48 `max` k).
  pose proof (round_up_ge (ks + k * m) 8 ltac:(lia)) as Hes.
  set (es := round_up (ks + k * m) 8) in *.
  rewrite (to_u64_small m) by nia. rewrite (to_u64_small (k * m)) by nia.
  destruct (memset (pg_bytes pg0) ks 0 (k * m)) as [buf1|] eqn:Hset1; [|intros [=]].
  simpl.
  assert (forall i, 0 <= i < m -> load buf1 (ks + k * i) k = Some 0) as Hkeys.
  { intros i Hi. eapply load_memset_inside; [exact Hset1|nia|lia|nia]. }
  pose proof Hset1 as Hsplice. unfold memset in Hsplice.
  case_decide as Hr1; [|done]. injection Hsplice as Hsplice.
  destruct Hr1 as (Hr1a & Hr1b & Hr1c).
  destruct type.
  - simpl. intros [= <- <-]. exists pId, pg0, rest. eexists.
    split; [done|]. split; [done|].
    split; [unfold set_page; simpl; apply lookup_insert_eq|]. simpl.
    split; [done|]. split; [done|]. split; [done|]. split.
    + intros i Hi. unfold key_at. simpl. by apply Hkeys.
    + intros i Hi. unfold child_at. simpl. rewrite <- Hsplice.
      apply load_splice_outside; rewrite ?length_replicate; [lia|lia|].
      right. unfold sizeof_pageId_t. nia.
  - simpl. rewrite (to_u64_small (sizeof_V * m)) by nia.
    destruct (memset buf1 es 0 (sizeof_V * m)) as [buf2|] eqn:Hset2; [|intros [=]].
    simpl. intros [= <- <-]. exists pId, pg0, rest. eexists.
    split; [done|]. split; [done|].
    split; [unfold set_page; simpl; apply lookup_insert_eq|]. simpl.
    split; [done|]. split; [done|]. split; [done|]. split.
    + intros i Hi. unfold key_at. simpl. rewrite <- (Hkeys i Hi).
      pose proof Hset2 as Hsplice2. unfold memset in Hsplice2.
      case_decide as Hr2; [|done]. injection Hsplice2 as <-.
      destruct Hr2 as (Hr2a & Hr2b & Hr2c).
      apply load_splice_outside; rewrite ?length_replicate; [lia|lia|].
      left. nia.
    + split; [done|]. intros i Hi. unfold value_at. simpl.
      eapply load_memset_inside; [exact Hset2|nia|lia|nia].
Qed.
End Creation.

(** C3: evaluated for a leaf with 8-byte keys and 4-byte values on a
    4096-byte page, the code computes [maxNumElements = 252] and
    [elementStart = 2064], where the layout of the claim gives 336 and
    2736: the code subtracts, divides by and aligns to
    [sizeof(sizeOfElement)], the size of a [size_t], whatever the element
    size is. *)
Theorem create_node_layout_ignores_element_size :
  @node_layout u64_u32 4096 = (252, 48, 2064)
  /\ spec_layout 4096 8 4 = (336, 48, 2736)
  /\ match @btree_create_leaf u64_u32 pool_4k uninitialised with
     | Some (bp, err, node) =>
         err = E_NO_ERROR
         /\ (pg_header <$> bp_pages bp !! 1)
            = Some (mkHeader E_LEAF 252 0 8 48 4 2064)
     | None => False
     end
  /\ forall k v v' inv pageSize,
       @node_layout (mkTypes k v inv) pageSize = @node_layout (mkTypes k v' inv) pageSize.
Proof.
  split; [vm_compute; reflexivity|]. split; [vm_compute; reflexivity|].
  split; [vm_compute; split; reflexivity|]. reflexivity.
Qed.

(** C6: evaluated on the example pool, [btree_create_internal] succeeds
    with [numElements = 0], a clean node and zeroed keys, and every child
    slot holds what the frame held before (zero bytes, or sevens where the
    sentinel is zero), not [INVALID_PAGE_ID]: the initialising loop runs
    to [m_numElements], which is 0. *)
Theorem create_internal_leaves_child_slots :
  match @btree_create_internal u64_u64 (small_pool 0) uninitialised with
  | Some (bp, err, node) =>
      err = E_NO_ERROR /\ m_dirty node = false
      /\ exists pg,
          bp_pages bp !! 4 = Some pg
          /\ m_numElements (pg_header pg) = 0
          /\ m_maxNumElements (pg_header pg) = 4
          /\ (@key_at u64_u64 pg node <$> [0; 1; 2; 3]) = replicate 4 (Some 0)
          /\ (child_at pg node <$> [0; 1; 2; 3]) = replicate 4 (Some 0)
          /\ @INVALID_PAGE_ID u64_u64 <> 0
  | None => False
  end
  /\ match @btree_create_internal u64_u64_zero (small_pool 7) uninitialised with
     | Some (bp, err, node) =>
         err = E_NO_ERROR
         /\ exists pg,
             bp_pages bp !! 4 = Some pg
             /\ (child_at pg node <$> [0; 1; 2; 3])
                = replicate 4 (Some 506381209866536711)
             /\ @INVALID_PAGE_ID u64_u64_zero <> 506381209866536711
     | None => False
     end.
Proof.
  split.
  - vm_compute. split; [reflexivity|]. split; [reflexivity|].
    eexists. split; [reflexivity|]. repeat split. discriminate.
  - vm_compute. split; [reflexivity|].
    eexists. split; [reflexivity|]. repeat split. discriminate.
Qed.
End BTreeFacts.

(** ** Contents of the store *)
Module StorageContentsFacts.
Import CInt Bytes FStream FileStorage StorageSpec StorageExamples StorageContents
  StorageScenarios.
Import CIntFacts BytesFacts FStreamFacts FileStorageFacts.

#[local] Arguments to_u64 : simpl never.
#[local] Arguments to_i64 : simpl never.
#[local] Arguments to_u32 : simpl never.
#[local] Arguments getExtentSize : simpl never.
#[local] Arguments Z.mul : simpl never.
#[local] Arguments Z.add : simpl never.
#[local] Arguments Z.sub : simpl never.
#[local] Arguments Z.div : simpl never.
#[local] Arguments Z.of_nat : simpl never.
#[local] Arguments Z.to_nat : simpl never.
#[local] Arguments file_write : simpl never.
#[local] Arguments file_read : simpl never.
#[local] Arguments take : simpl never.
#[local] Arguments replicate : simpl never.

Lemma byte_at_file_write f q data i :
  byte_at (file_write f q data) i =
    if decide (q <= i < q + Z.of_nat (length data))
    then default 0 (data !! Z.to_nat (i - q)) else byte_at f i.
Proof.
  unfold byte_at, file_write. cbn [f_bytes]. rewrite lookup_write_bytes.
  by case_decide.
Qed.

Lemma lookup_file_read f q n i :
  file_read f q n !! i =
    if decide (Z.of_nat i < n) then Some (byte_at f (q + Z.of_nat i)) else None.
Proof.
  unfold file_read. rewrite list_lookup_fmap. case_decide.
  - rewrite lookup_seqZ_lt by done. simpl. repeat f_equal; lia.
  - by rewrite lookup_seqZ_ge by lia.
Qed.

Lemma wf_file_empty : wf_file empty_file.
Proof. intros i _. apply lookup_empty. Qed.

Lemma wf_file_write f q data : wf_file f -> wf_file (file_write f q data).
Proof.
  intros Hwf i Hi. unfold file_write in *. cbn [f_len f_bytes] in *.
  rewrite lookup_write_bytes. case_decide; [lia|]. apply Hwf. lia.
Qed.

Lemma byte_at_past_end f i : wf_file f -> f_len f <= i -> byte_at f i = 0.
Proof. intros Hwf Hi. unfold byte_at. by rewrite Hwf. Qed.

Lemma file_at_insert fs path f :
  file_at (mkFS (<[path := f]> (fs_files fs)) (fs_denied fs)) path = f.
Proof. unfold file_at. cbn [fs_files]. by rewrite lookup_insert_eq. Qed.

Lemma file_at_lookup fs path f : fs_files fs !! path = Some f -> file_at fs path = f.
Proof. intros H. unfold file_at. by rewrite H. Qed.

Lemma resize_zeros k n : 0 <= n -> resize (replicate k 0) n = replicate (Z.to_nat n) 0.
Proof.
  intros Hn. unfold resize. rewrite take_replicate, length_replicate.
  rewrite <- replicate_add. f_equal. lia.
Qed.

(** [read] of an extent of the store, exactly. *)
Lemma read_exact fs s path buf e :
  store_ok fs s path -> 1 <= e < size s ->
  getExtentSize (config s) <= Z.of_nat (length buf) ->
  exists s',
    read fs s buf e
    = Some (fs, s', E_NO_ERROR, overlay (extent_bytes fs path (config s) e) buf)
    /\ size s' = size s /\ config s' = config s /\ m_extentFiller s' = m_extentFiller s
    /\ store_ok fs s' path.
Proof.
  intros (f & q & Hs & Hden & Hf & Hwf & HE & Hfill & Hlen & Hsz & Hhdr & Himg) He Hd.
  unfold extent_bytes. rewrite (file_at_lookup fs path f Hf).
  destruct s as [mf cfg sz filler]. unfold size, config in *. simpl in *. subst mf.
  rewrite max_off_eq in Hlen.
  pose proof (Z.mul_div_le (f_len f) (getExtentSize cfg) HE) as Hle.
  assert ((e + 1) * getExtentSize cfg <= f_len f) as Hin by (subst sz; nia).
  unfold read. simpl.
  rewrite bool_decide_eq_false_2, bool_decide_eq_false_2 by lia. simpl.
  unfold extentToBytes. rewrite to_u64_small by nia. rewrite to_i64_small by nia.
  unfold seekg. rewrite (seek_good fs path f Hf _ _ beg) by (simpl; rewrite max_off_eq; nia).
  simpl. rewrite (read_good fs path f Hf) by nia.
  rewrite bool_decide_eq_false_2 by (rewrite file_read_length; lia). simpl.
  rewrite Z.add_0_l.
  eexists. split; [reflexivity|]. simpl. split; [done|]. split; [done|]. split; [done|].
  exists f. eexists. simpl. rewrite max_off_eq. done.
Qed.

(** [write] of an extent of the store, exactly. *)
Lemma write_exact fs s path data e :
  store_ok fs s path -> 1 <= e < size s ->
  getExtentSize (config s) <= Z.of_nat (length data) ->
  exists fs' s',
    write fs s data e = Some (fs', s', E_NO_ERROR, ())
    /\ size s' = size s /\ config s' = config s /\ m_extentFiller s' = m_extentFiller s
    /\ store_ok fs' s' path
    /\ fs_denied fs' = fs_denied fs
    /\ (forall p, p <> path -> fs_files fs' !! p = fs_files fs !! p)
    /\ file_at fs' path
       = file_write (file_at fs path) (e * getExtentSize (config s))
                    (take (Z.to_nat (getExtentSize (config s))) data).
Proof.
  intros (f & q & Hs & Hden & Hf & Hwf & HE & Hfill & Hlen & Hsz & Hhdr & Himg) He Hd.
  rewrite (file_at_lookup fs path f Hf).
  destruct s as [mf cfg sz filler]. unfold size, config in *. simpl in *. subst mf.
  rewrite max_off_eq in Hlen. pose proof (getExtentSize_ge cfg HE) as HE'.
  pose proof (Z.mul_div_le (f_len f) (getExtentSize cfg) HE) as Hle.
  assert ((e + 1) * getExtentSize cfg <= f_len f) as Hin by (subst sz; nia).
  unfold write. simpl.
  rewrite bool_decide_eq_false_2, bool_decide_eq_false_2 by lia. simpl.
  unfold extentToBytes. rewrite to_u64_small by nia. rewrite to_i64_small by nia.
  unfold seekp. rewrite (seek_good fs path f Hf _ _ beg) by (simpl; rewrite max_off_eq; nia).
  simpl. rewrite bool_decide_eq_false_2 by lia.
  assert (Z.of_nat (length (take (Z.to_nat (getExtentSize cfg)) data)) = getExtentSize cfg)
    as Htake by (rewrite length_take; lia).
  rewrite (write_good fs path f Hf).
  2:{ intros Hnil. rewrite Hnil in Htake. simpl in Htake. lia. }
  2:{ rewrite Htake, max_off_eq. nia. }
  simpl. rewrite Z.add_0_l.
  eexists _, _. split; [reflexivity|]. simpl. split; [done|]. split; [done|].
  split; [done|]. split.
  - eexists _, _. simpl. split; [reflexivity|]. split; [done|].
    split; [apply lookup_insert_eq|]. split; [done|]. split; [done|]. split; [done|].
    unfold file_write. simpl. rewrite Htake, max_off_eq.
    replace (f_len f `max` (e * getExtentSize cfg + getExtentSize cfg))
      with (f_len f) by nia.
    split; [lia|]. split; [done|]. split; [done|].
    rewrite <- Himg. apply (file_read_file_write_disjoint f). left.
    unfold sizeof_config. nia.
  - split; [done|]. split.
    + intros p Hp. by apply lookup_insert_ne.
    + apply file_at_insert.
Qed.

Lemma extent_bytes_written fs fs' path c e data :
  file_at fs' path = file_write (file_at fs path) (e * getExtentSize c) data ->
  Z.of_nat (length data) = getExtentSize c ->
  extent_bytes fs' path c e = data.
Proof.
  intros Hf Hlen. unfold extent_bytes. rewrite Hf, <- Hlen.
  apply file_read_file_write.
Qed.

Lemma extent_bytes_other fs fs' path c e e' data :
  file_at fs' path = file_write (file_at fs path) (e * getExtentSize c) data ->
  Z.of_nat (length data) = getExtentSize c ->
  e' <> e ->
  extent_bytes fs' path c e' = extent_bytes fs path c e'.
Proof.
  intros Hf Hlen Hne. unfold extent_bytes. rewrite Hf.
  apply file_read_file_write_disjoint. rewrite Hlen.
  pose proof (getExtentSize_range c). nia.
Qed.

(** A [create] that reports success, with the file it leaves. *)
Lemma create_exact fs s path cfg overwrite fs1 s1 :
  wf_config cfg ->
  create fs s path cfg overwrite = Some (fs1, s1, E_NO_ERROR, ()) ->
  store_ok fs1 s1 path /\ config s1 = cfg /\ size s1 = 1
  /\ m_extentFiller s1 = resize (m_extentFiller s) (getExtentSize cfg)
  /\ file_at fs1 path
     = file_write (file_write empty_file 0 (resize (m_extentFiller s) (getExtentSize cfg)))
                  0 (config_image cfg)
  /\ fs_denied fs1 = fs_denied fs
  /\ (forall p, p <> path -> fs_files fs1 !! p = fs_files fs !! p).
Proof.
  intros Hwf Hc. destruct (create_inv _ _ _ _ _ _ _ Hwf Hc) as (Hok & Hcfg & Hsz).
  split; [done|]. split; [done|]. split; [done|]. revert Hc. clear Hok Hcfg Hsz.
  unfold create.
  destruct (negb overwrite && readable fs path); [intros [=]|].
  unfold FStream.open. destruct (is_open (m_file s)) eqn:Hopen; [intros [=]|].
  destruct (bool_decide (path ∈ fs_denied fs)) eqn:Hden; [intros [=]|].
  apply bool_decide_eq_false in Hden. simpl.
  set (fs0 := mkFS _ _).
  assert (Hf0 : fs_files fs0 !! path = Some empty_file) by apply lookup_insert_eq.
  destruct (decide (getExtentSize cfg = 0)) as [HE0|HE0].
  { unfold reserve. simpl. unfold seekp.
    rewrite (seek_good fs0 path _ Hf0 _ _ end_) by (simpl; rewrite max_off_eq; lia).
    simpl. unfold bytesToExtent. simpl. rewrite bool_decide_eq_true_2 by done.
    intros [=]. }
  pose proof (getExtentSize_range cfg) as HEr.
  assert (0 < getExtentSize cfg) as HE by lia.
  pose proof (getExtentSize_ge cfg HE) as HE'.
  rewrite (reserve_good fs0 path empty_file); simpl; try done; try lia.
  2:{ apply length_resize. lia. }
  2:{ rewrite max_off_eq. lia. }
  set (f1 := file_write _ _ _). set (fs2 := mkFS _ _).
  assert (Hf1 : fs_files fs2 !! path = Some f1) by apply lookup_insert_eq.
  unfold seekp. rewrite (seek_good fs2 path f1 Hf1 _ _ beg) by (simpl; rewrite max_off_eq; lia).
  rewrite (write_good fs2 path f1 Hf1) by (try done; simpl; rewrite max_off_eq; lia).
  simpl. intros [= <- <-]. simpl. split; [done|]. split.
  - unfold file_at. simpl. rewrite lookup_insert_eq. simpl. subst f1.
    replace (0 + (1 - 1) * getExtentSize cfg) with 0 by lia.
    replace (0 + 0) with 0 by lia. done.
  - split; [done|]. intros p Hp. subst fs2 fs0. simpl.
    by rewrite !lookup_insert_ne.
Qed.

(** The header extent after [create] from a store with a zero filler. *)
Lemma header_extent cfg k :
  1024 <= getExtentSize cfg ->
  file_read (file_write (file_write empty_file 0
                           (resize (replicate k 0) (getExtentSize cfg)))
                        0 (config_image cfg))
            (0 * getExtentSize cfg) (getExtentSize cfg)
  = config_image cfg
    ++ replicate (Z.to_nat (getExtentSize cfg) - sizeof_config)%nat 0.
Proof.
  intros HE. rewrite resize_zeros by lia. apply list_eq. intros i.
  rewrite lookup_file_read.
  assert (length (config_image cfg) = 4%nat) as Himg
    by (unfold config_image; apply length_le_bytes).
  case_decide as Hi.
  - rewrite byte_at_file_write, Himg. case_decide as Hh.
    + rewrite lookup_app_l by lia.
      replace (Z.to_nat (0 * getExtentSize cfg + Z.of_nat i - 0)) with i by lia.
      destruct (lookup_lt_is_Some_2 (config_image cfg) i) as [x Hx]; [lia|].
      by rewrite Hx.
    + rewrite lookup_app_r by lia. rewrite lookup_replicate_2 by (unfold sizeof_config; lia).
      f_equal. rewrite byte_at_file_write, length_replicate. case_decide.
      * by rewrite lookup_replicate_2 by lia.
      * done.
  - symmetry. apply lookup_ge_None.
    rewrite length_app, length_replicate, Himg. unfold sizeof_config. lia.
Qed.

Lemma store_ok_file fs s path :
  store_ok fs s path ->
  fs_files fs !! path = Some (file_at fs path)
  /\ 0 < getExtentSize (config s)
  /\ Z.of_nat (length (m_extentFiller s)) = getExtentSize (config s)
  /\ 0 <= f_len (file_at fs path) <= max_off
  /\ size s = f_len (file_at fs path) / getExtentSize (config s)
  /\ Z.of_nat sizeof_config <= f_len (file_at fs path)
  /\ exists q, m_file s = mkStream (Some path) q false.
Proof.
  intros (f & q & Hs & Hden & Hf & Hwf & HE & Hfill & Hlen & Hsz & Hhdr & Himg).
  rewrite (file_at_lookup fs path f Hf). unfold size, config. eauto 10.
Qed.

(** [reserve] on a tidy store: the old extents keep their bytes and the
    new ones hold zeros. *)
Lemma reserve_tidy fs s path n e0 :
  store_tidy fs s path -> 1 <= n < 2 ^ 32 ->
  (size s + n + 1) * getExtentSize (config s) <= max_off ->
  exists fs' s',
    reserve fs s n e0 = Some (fs', s', E_NO_ERROR, size s)
    /\ size s' = size s + n /\ config s' = config s
    /\ store_tidy fs' s' path
    /\ (forall e, 0 <= e < size s ->
                  extent_bytes fs' path (config s) e = extent_bytes fs path (config s) e)
    /\ (forall e, size s <= e < size s + n ->
                  extent_bytes fs' path (config s) e
                  = replicate (Z.to_nat (getExtentSize (config s))) 0).
Proof.
  intros (Hok & Hwhole & Hwff & Hzero) Hn Hfit.
  destruct (reserve_ok fs s path n e0 Hok Hn Hfit) as (fs' & s' & Hres & Hsz' & Hcfg' & Hok').
  destruct (store_ok_file fs s path Hok) as (Hf & HE & Hfill & Hlen & Hsz & Hhdr & q & Hs).
  exists fs', s'. split; [done|]. split; [done|]. split; [done|].
  destruct s as [mf cfg sz filler]. unfold size, config, zero_filled in *. simpl in *.
  subst mf. set (f := file_at fs path) in *. rewrite max_off_eq in *.
  rewrite (reserve_good fs path f) in Hres by (try done; rewrite ?max_off_eq; nia).
  injection Hres as <- <-.
  assert (Hfile' : file_at (mkFS (<[path := file_write f (f_len f + (n - 1) * getExtentSize cfg) filler]>
                                    (fs_files fs)) (fs_denied fs)) path
                   = file_write f (f_len f + (n - 1) * getExtentSize cfg) filler)
    by apply file_at_insert.
  split.
  { split; [done|]. rewrite Hfile'. unfold size, config. simpl.
    split; [|split; [by apply wf_file_write|done]].
    unfold file_write. simpl. rewrite Hfill. rewrite Hwhole, Z.div_mul by lia. nia. }
  split.
  - intros e He. unfold extent_bytes. rewrite Hfile'.
    apply file_read_file_write_disjoint. left. nia.
  - intros e He. unfold extent_bytes. rewrite Hfile'. apply list_eq. intros i.
    rewrite lookup_file_read. case_decide as Hi.
    + rewrite lookup_replicate_2 by lia. f_equal.
      rewrite byte_at_file_write. case_decide.
      * rewrite Hzero. rewrite lookup_replicate_2 by lia. done.
      * apply byte_at_past_end; [done|]. nia.
    + symmetry. apply lookup_replicate_None. lia.
Qed.

Lemma write_tidy fs s path data e fs' s' :
  store_tidy fs s path -> 1 <= e < size s ->
  getExtentSize (config s) <= Z.of_nat (length data) ->
  write fs s data e = Some (fs', s', E_NO_ERROR, ()) ->
  store_tidy fs' s' path.
Proof.
  intros (Hok & Hwhole & Hwff & Hzero) He Hd Hw.
  destruct (write_exact fs s path data e Hok He Hd)
    as (fs1 & s1 & Hw1 & Hsz & Hcfg & Hfill & Hok1 & _ & _ & Hfile).
  rewrite Hw1 in Hw. injection Hw as <- <-.
  destruct (store_ok_file fs s path Hok) as (Hf & HE & _ & Hlen & Hsz0 & _).
  split; [done|]. rewrite Hfile, Hsz, Hcfg. unfold zero_filled. rewrite Hfill.
  split; [|split; [by apply wf_file_write|done]].
  unfold file_write. cbn [f_len]. rewrite length_take.
  pose proof (getExtentSize_range (config s)). nia.
Qed.

Lemma create_tidy fs s path cfg overwrite fs1 s1 :
  wf_config cfg -> zero_filled s ->
  create fs s path cfg overwrite = Some (fs1, s1, E_NO_ERROR, ()) ->
  store_tidy fs1 s1 path
  /\ extent_bytes fs1 path cfg 0
     = config_image cfg ++ replicate (Z.to_nat (getExtentSize cfg) - sizeof_config)%nat 0.
Proof.
  intros Hwf Hz Hc.
  destruct (create_exact _ _ _ _ _ _ _ Hwf Hc) as (Hok & Hcfg & Hsz & Hfill & Hfile & _).
  destruct (store_ok_file fs1 s1 path Hok) as (_ & HE & _).
  rewrite Hcfg in HE. pose proof (getExtentSize_ge cfg HE) as HE'.
  pose proof (getExtentSize_range cfg) as HEr.
  unfold zero_filled in Hz. rewrite Hz in Hfill, Hfile.
  split.
  - split; [done|]. rewrite Hfile, Hsz, Hcfg. split; [|split].
    + unfold file_write. cbn [f_len]. rewrite length_resize by lia.
      unfold config_image. rewrite length_le_bytes. unfold sizeof_config. simpl. lia.
    + apply wf_file_write, wf_file_write, wf_file_empty.
    + unfold zero_filled. rewrite Hfill. rewrite resize_zeros by lia.
      by rewrite length_replicate.
  - unfold extent_bytes. rewrite Hfile. by apply header_extent.
Qed.

Lemma unopened_zero_filled : zero_filled unopened.
Proof. reflexivity. Qed.

Lemma created_1_tidy : store_tidy (created 1).1 (created 1).2 test_db.
Proof.
  refine (proj1 (create_tidy empty_fs unopened test_db (mkConfig 1) true _ _ _ _ _)).
  - unfold wf_config, is_u32. simpl. lia.
  - apply unopened_zero_filled.
  - apply created_eq. vm_compute. reflexivity.
Qed.

Lemma created_1_size : size (created 1).2 = 1 /\ config (created 1).2 = mkConfig 1.
Proof. vm_compute. done. Qed.

Lemma reserved_tidy :
  store_tidy reserved.1 reserved.2 test_db
  /\ size reserved.2 = 3 /\ config reserved.2 = mkConfig 1.
Proof.
  destruct created_1_size as [Hsz Hcfg].
  destruct (reserve_tidy (created 1).1 (created 1).2 test_db 2 0 created_1_tidy)
    as (fs' & s' & Hres & Hsz' & Hcfg' & Htidy & _).
  - lia.
  - rewrite Hsz, Hcfg. vm_compute. discriminate.
  - unfold reserved. rewrite Hres. cbn [fst snd]. rewrite Hsz', Hcfg', Hsz, Hcfg.
    split; [exact Htidy|]. split; reflexivity.
Qed.

Lemma reserved_ok : store_ok reserved.1 reserved.2 test_db.
Proof. apply reserved_tidy. Qed.

Lemma extent_size_1 : getExtentSize (mkConfig 1) = 1024.
Proof. reflexivity. Qed.

(** C2, as stated, fails on a store whose file is open but whose stream
    has failed: after [open("other.db")] was refused on the three-extent
    store the file is still open and [size()] is 3, and [read] and
    [write] of extent 1 return [E_STORAGE_OUT_OF_BOUNDS_EXTENT], although
    1 is neither 0 nor at or above [size()]. *)
Lemma read_write_in_range_on_failed_stream :
  is_open (m_file jammed) = Some test_db
  /\ failed (m_file jammed) = true
  /\ size jammed = 3
  /\ match read reserved.1 jammed sevens 1 with
     | Some (_, _, r, _) => r = E_STORAGE_OUT_OF_BOUNDS_EXTENT
     | None => False
     end
  /\ match write reserved.1 jammed sevens 1 with
     | Some (_, _, r, _) => r = E_STORAGE_OUT_OF_BOUNDS_EXTENT
     | None => False
     end
  /\ ~ (1 = 0 \/ 1 >= size jammed).
Proof.
  assert (size jammed = 3) as Hsz by (vm_compute; reflexivity).
  split; [vm_compute; reflexivity|]. split; [vm_compute; reflexivity|].
  split; [exact Hsz|]. split; [vm_compute; reflexivity|].
  split; [vm_compute; reflexivity|]. rewrite Hsz. lia.
Qed.

Lemma read_write_out_of_bounds_extent_witness :
  (exists s' r data',
      read reserved.1 reserved.2 sevens 1 = Some (reserved.1, s', r, data')
      /\ (r = E_STORAGE_OUT_OF_BOUNDS_EXTENT <-> 1 = 0 \/ 1 >= size reserved.2))
  /\ (exists fs' s' r,
      write reserved.1 reserved.2 sevens 1 = Some (fs', s', r, ())
      /\ (r = E_STORAGE_OUT_OF_BOUNDS_EXTENT <-> 1 = 0 \/ 1 >= size reserved.2))
  /\ read reserved.1 reserved.2 sevens 0
     = Some (reserved.1, reserved.2, E_STORAGE_OUT_OF_BOUNDS_EXTENT, sevens)
  /\ write reserved.1 reserved.2 sevens 0
     = Some (reserved.1, reserved.2, E_STORAGE_OUT_OF_BOUNDS_EXTENT, ()).
Proof.
  apply (read_write_out_of_bounds_extent _ _ test_db).
  - apply reserved_ok.
  - destruct reserved_tidy as (_ & _ & ->). vm_compute. discriminate.
  - lia.
Defined.


(** X1: on an open store, for an extent in [[1, size())], [write]
    followed by [read] of the same extent succeeds and gives back the
    first extent-size bytes that were written, the rest of the read
    buffer untouched. *)
Theorem write_then_read fs s path data buf e :
  store_ok fs s path -> 1 <= e < size s ->
  getExtentSize (config s) <= Z.of_nat (length data) ->
  getExtentSize (config s) <= Z.of_nat (length buf) ->
  exists fs1 s1 s2,
    write fs s data e = Some (fs1, s1, E_NO_ERROR, ())
    /\ read fs1 s1 buf e
       = Some (fs1, s2, E_NO_ERROR,
               take (Z.to_nat (getExtentSize (config s))) data
               ++ drop (Z.to_nat (getExtentSize (config s))) buf).
Proof.
  intros Hok He Hd Hb. pose proof (getExtentSize_range (config s)) as HEr.
  destruct (write_exact fs s path data e Hok He Hd)
    as (fs1 & s1 & Hw & Hsz & Hcfg & _ & Hok1 & _ & _ & Hfile).
  destruct (read_exact fs1 s1 path buf e Hok1) as (s2 & Hr & _); [lia|by rewrite Hcfg|].
  exists fs1, s1, s2. split; [done|]. rewrite Hr, Hcfg. do 2 f_equal.
  rewrite (extent_bytes_written fs fs1 path (config s) e _ Hfile)
    by (rewrite length_take; lia).
  unfold overlay. rewrite length_take, Nat.min_l by lia. done.
Qed.

Lemma write_then_read_witness :
  exists fs1 s1 s2,
    write reserved.1 reserved.2 sevens 1 = Some (fs1, s1, E_NO_ERROR, ())
    /\ read fs1 s1 (zeros 1024) 1
       = Some (fs1, s2, E_NO_ERROR,
               take (Z.to_nat (getExtentSize (config reserved.2))) sevens
               ++ drop (Z.to_nat (getExtentSize (config reserved.2))) (zeros 1024)).
Proof.
  destruct reserved_tidy as (_ & Hsz & Hcfg).
  apply (write_then_read reserved.1 reserved.2 test_db sevens (zeros 1024) 1).
  - apply reserved_ok.
  - rewrite Hsz. lia.
  - rewrite Hcfg. vm_compute. discriminate.
  - rewrite Hcfg. vm_compute. discriminate.
Defined.

(** X2: a [write] to one extent leaves what [read] returns for every
    other extent of the store unchanged. *)
Theorem write_leaves_other_extents fs s path data buf e e' :
  store_ok fs s path -> 1 <= e < size s -> 1 <= e' < size s -> e' <> e ->
  getExtentSize (config s) <= Z.of_nat (length data) ->
  getExtentSize (config s) <= Z.of_nat (length buf) ->
  exists fs1 s1 s2 s3 bytes,
    write fs s data e = Some (fs1, s1, E_NO_ERROR, ())
    /\ read fs s buf e' = Some (fs, s2, E_NO_ERROR, bytes)
    /\ read fs1 s1 buf e' = Some (fs1, s3, E_NO_ERROR, bytes).
Proof.
  intros Hok He He' Hne Hd Hb. pose proof (getExtentSize_range (config s)) as HEr.
  destruct (write_exact fs s path data e Hok He Hd)
    as (fs1 & s1 & Hw & Hsz & Hcfg & _ & Hok1 & _ & _ & Hfile).
  destruct (read_exact fs s path buf e' Hok He' Hb) as (s2 & Hr & _).
  destruct (read_exact fs1 s1 path buf e' Hok1) as (s3 & Hr1 & _); [lia|by rewrite Hcfg|].
  exists fs1, s1, s2, s3. eexists. split; [done|]. split; [exact Hr|].
  rewrite Hr1, Hcfg. do 3 f_equal.
  apply (extent_bytes_other fs fs1 path (config s) e e' _ Hfile); [|done].
  rewrite length_take. lia.
Qed.

Lemma write_leaves_other_extents_witness :
  exists fs1 s1 s2 s3 bytes,
    write reserved.1 reserved.2 sevens 1 = Some (fs1, s1, E_NO_ERROR, ())
    /\ read reserved.1 reserved.2 (zeros 1024) 2 = Some (reserved.1, s2, E_NO_ERROR, bytes)
    /\ read fs1 s1 (zeros 1024) 2 = Some (fs1, s3, E_NO_ERROR, bytes).
Proof.
  destruct reserved_tidy as (_ & Hsz & Hcfg).
  apply (write_leaves_other_extents reserved.1 reserved.2 test_db sevens (zeros 1024) 1 2).
  - apply reserved_ok.
  - rewrite Hsz. lia.
  - rewrite Hsz. lia.
  - lia.
  - rewrite Hcfg. vm_compute. discriminate.
  - rewrite Hcfg. vm_compute. discriminate.
Defined.

(** X3: what was written to an extent is still read after [close] and
    [open] of the same path: [write], [close], [open], [read] all
    succeed and [read] returns the bytes written. *)
Theorem write_close_open_read fs s path data buf e :
  store_ok fs s path -> 1 <= e < size s ->
  getExtentSize (config s) <= Z.of_nat (length data) ->
  getExtentSize (config s) <= Z.of_nat (length buf) ->
  exists fs1 s1 s2 s3 s4,
    write fs s data e = Some (fs1, s1, E_NO_ERROR, ())
    /\ close fs1 s1 = (fs1, s2, E_NO_ERROR)
    /\ open fs1 s2 path = Some (fs1, s3, E_NO_ERROR, ())
    /\ size s3 = size s /\ config s3 = config s
    /\ read fs1 s3 buf e
       = Some (fs1, s4, E_NO_ERROR,
               take (Z.to_nat (getExtentSize (config s))) data
               ++ drop (Z.to_nat (getExtentSize (config s))) buf).
Proof.
  intros Hok He Hd Hb. pose proof (getExtentSize_range (config s)) as HEr.
  destruct (write_exact fs s path data e Hok He Hd)
    as (fs1 & s1 & Hw & Hsz & Hcfg & _ & Hok1 & _ & _ & Hfile).
  destruct (close_open fs1 s1 path Hok1) as (s2 & s3 & Hcl & _ & Hop & Hcfg3 & Hsz3 & Hok3).
  destruct (read_exact fs1 s3 path buf e Hok3) as (s4 & Hr & _);
    [lia|by rewrite Hcfg3, Hcfg|].
  exists fs1, s1, s2, s3, s4. split; [done|]. split; [done|]. split; [done|].
  split; [lia|]. split; [congruence|]. rewrite Hr, Hcfg3, Hcfg. do 2 f_equal.
  rewrite (extent_bytes_written fs fs1 path (config s) e _ Hfile)
    by (rewrite length_take; lia).
  unfold overlay. rewrite length_take, Nat.min_l by lia. done.
Qed.

Lemma write_close_open_read_witness :
  exists fs1 s1 s2 s3 s4,
    write reserved.1 reserved.2 sevens 2 = Some (fs1, s1, E_NO_ERROR, ())
    /\ close fs1 s1 = (fs1, s2, E_NO_ERROR)
    /\ open fs1 s2 test_db = Some (fs1, s3, E_NO_ERROR, ())
    /\ size s3 = size reserved.2 /\ config s3 = config reserved.2
    /\ read fs1 s3 (zeros 1024) 2
       = Some (fs1, s4, E_NO_ERROR,
               take (Z.to_nat (getExtentSize (config reserved.2))) sevens
               ++ drop (Z.to_nat (getExtentSize (config reserved.2))) (zeros 1024)).
Proof.
  destruct reserved_tidy as (_ & Hsz & Hcfg).
  apply (write_close_open_read reserved.1 reserved.2 test_db sevens (zeros 1024) 2).
  - apply reserved_ok.
  - rewrite Hsz. lia.
  - rewrite Hcfg. vm_compute. discriminate.
  - rewrite Hcfg. vm_compute. discriminate.
Defined.

(** X4: [reserve(n, extent)] on a store over a file of whole extents
    appends zeroed extents: afterwards every extent from the old [size()]
    up to the new one can be read, and reads as zeros. *)
Theorem reserve_appends_zeroed_extents fs s path n e0 buf e :
  store_tidy fs s path -> 1 <= n < 2 ^ 32 ->
  (size s + n + 1) * getExtentSize (config s) <= max_off ->
  size s <= e < size s + n ->
  getExtentSize (config s) <= Z.of_nat (length buf) ->
  exists fs' s' s'',
    reserve fs s n e0 = Some (fs', s', E_NO_ERROR, size s)
    /\ store_tidy fs' s' path
    /\ read fs' s' buf e
       = Some (fs', s'', E_NO_ERROR,
               replicate (Z.to_nat (getExtentSize (config s))) 0
               ++ drop (Z.to_nat (getExtentSize (config s))) buf).
Proof.
  intros Htidy Hn Hfit He Hb. pose proof (getExtentSize_range (config s)) as HEr.
  destruct (reserve_tidy fs s path n e0 Htidy Hn Hfit)
    as (fs' & s' & Hres & Hsz & Hcfg & Htidy' & _ & Hnew).
  destruct Htidy as (Hok & Hwhole & _).
  destruct (store_ok_file fs s path Hok) as (_ & HE & _ & _ & _ & Hhdr & _).
  assert (1 <= size s) as Hs1 by (unfold sizeof_config in Hhdr; nia).
  destruct (read_exact fs' s' path buf e (proj1 Htidy')) as (s'' & Hr & _);
    [lia|by rewrite Hcfg|].
  exists fs', s', s''. split; [done|]. split; [done|].
  rewrite Hr, Hcfg, (Hnew e He). unfold overlay. by rewrite length_replicate.
Qed.

Lemma reserve_appends_zeroed_extents_witness :
  exists fs' s' s'',
    reserve (created 1).1 (created 1).2 2 0
    = Some (fs', s', E_NO_ERROR, size (created 1).2)
    /\ store_tidy fs' s' test_db
    /\ read fs' s' sevens 2
       = Some (fs', s'', E_NO_ERROR,
               replicate (Z.to_nat (getExtentSize (config (created 1).2))) 0
               ++ drop (Z.to_nat (getExtentSize (config (created 1).2))) sevens).
Proof.
  destruct created_1_size as [Hsz Hcfg].
  apply (reserve_appends_zeroed_extents (created 1).1 (created 1).2 test_db 2 0 sevens 2).
  - apply created_1_tidy.
  - lia.
  - rewrite Hsz, Hcfg. vm_compute. discriminate.
  - rewrite Hsz. lia.
  - rewrite Hcfg. vm_compute. discriminate.
Defined.

(** X5: on an open store, [reserve(n, extent)] with [1 <= n < 2^32]
    that keeps the file within the offset type returns [E_NO_ERROR] and
    leaves the extents the store already had as they were: [read] of an
    extent below the old [size()] returns the same bytes before and
    after. *)
Theorem reserve_keeps_extents fs s path n e0 buf e :
  store_ok fs s path -> 1 <= n < 2 ^ 32 ->
  (size s + n + 1) * getExtentSize (config s) <= max_off ->
  1 <= e < size s ->
  getExtentSize (config s) <= Z.of_nat (length buf) ->
  exists fs' s' s1 s2 bytes,
    reserve fs s n e0 = Some (fs', s', E_NO_ERROR, size s)
    /\ read fs s buf e = Some (fs, s1, E_NO_ERROR, bytes)
    /\ read fs' s' buf e = Some (fs', s2, E_NO_ERROR, bytes).
Proof.
  intros Hok Hn Hfit He Hb. pose proof (getExtentSize_range (config s)) as HEr.
  destruct (reserve_ok fs s path n e0 Hok Hn Hfit) as (fs' & s' & Hres & Hsz' & Hcfg' & Hok').
  destruct (read_exact fs s path buf e Hok He Hb) as (s1 & Hr & _).
  destruct (read_exact fs' s' path buf e Hok') as (s2 & Hr' & _); [lia|by rewrite Hcfg'|].
  exists fs', s', s1, s2. eexists. split; [done|]. split; [exact Hr|].
  rewrite Hr', Hcfg'. do 3 f_equal.
  destruct (store_ok_file fs s path Hok) as (Hf & HE & Hfill & Hlen & Hsz & _ & q & Hs).
  destruct s as [mf cfg sz filler]. unfold size, config in *. simpl in *. subst mf.
  set (f := file_at fs path) in *. rewrite max_off_eq in *.
  pose proof (Z.mul_div_le (f_len f) (getExtentSize cfg) HE) as Hle.
  pose proof (Z.mod_pos_bound (f_len f) (getExtentSize cfg) HE).
  pose proof (Z.div_mod (f_len f) (getExtentSize cfg)).
  rewrite (reserve_good fs path f) in Hres by (try done; rewrite ?max_off_eq; subst sz; nia).
  injection Hres as <- <-. unfold extent_bytes. rewrite file_at_insert. fold f.
  apply file_read_file_write_disjoint. left. subst sz. nia.
Qed.

Lemma reserve_keeps_extents_witness :
  exists fs' s' s1 s2 bytes,
    reserve reserved.1 reserved.2 1 0 = Some (fs', s', E_NO_ERROR, size reserved.2)
    /\ read reserved.1 reserved.2 sevens 2 = Some (reserved.1, s1, E_NO_ERROR, bytes)
    /\ read fs' s' sevens 2 = Some (fs', s2, E_NO_ERROR, bytes).
Proof.
  destruct reserved_tidy as (_ & Hsz & Hcfg).
  apply (reserve_keeps_extents reserved.1 reserved.2 test_db 1 0 sevens 2).
  - apply reserved_ok.
  - lia.
  - rewrite Hsz, Hcfg. vm_compute. discriminate.
  - rewrite Hsz. lia.
  - rewrite Hcfg. vm_compute. discriminate.
Defined.

(** X6: a successful [create] from a store whose filler is zero leaves a
    file of exactly one extent, the configuration record at its start and
    zeros after it, and touches no other file. *)
Theorem create_writes_header_extent fs s path cfg overwrite fs1 s1 :
  wf_config cfg -> zero_filled s ->
  create fs s path cfg overwrite = Some (fs1, s1, E_NO_ERROR, ()) ->
  size s1 = 1
  /\ f_len (file_at fs1 path) = getExtentSize cfg
  /\ extent_bytes fs1 path cfg 0
     = config_image cfg ++ replicate (Z.to_nat (getExtentSize cfg) - sizeof_config)%nat 0
  /\ (forall p, p <> path -> fs_files fs1 !! p = fs_files fs !! p)
  /\ store_tidy fs1 s1 path.
Proof.
  intros Hwf Hz Hc.
  destruct (create_exact _ _ _ _ _ _ _ Hwf Hc) as (_ & Hcfg & Hsz & _ & _ & _ & Hothers).
  destruct (create_tidy _ _ _ _ _ _ _ Hwf Hz Hc) as (Htidy & Hext).
  split; [done|]. split; [|done].
  destruct Htidy as (_ & Hwhole & _). rewrite Hwhole, Hsz, Hcfg. lia.
Qed.

Lemma create_writes_header_extent_witness :
  size (created 4).2 = 1
  /\ f_len (file_at (created 4).1 test_db) = getExtentSize (mkConfig 4)
  /\ extent_bytes (created 4).1 test_db (mkConfig 4) 0
     = config_image (mkConfig 4)
       ++ replicate (Z.to_nat (getExtentSize (mkConfig 4)) - sizeof_config)%nat 0
  /\ (forall p, p <> test_db -> fs_files (created 4).1 !! p = fs_files empty_fs !! p)
  /\ store_tidy (created 4).1 (created 4).2 test_db.
Proof.
  apply (create_writes_header_extent empty_fs unopened test_db (mkConfig 4) true).
  - unfold wf_config, is_u32. simpl. lia.
  - apply unopened_zero_filled.
  - apply created_eq. vm_compute. reflexivity.
Defined.

(** X7: once a store exists at [path], [create] on that path without
    [overwrite] returns [E_STORAGE_PATH_ALREADY_EXISTS], from any store
    object and with any configuration, and changes neither the file
    system nor the object. *)
Theorem create_refuses_existing_path fs s path s0 cfg :
  store_ok fs s path ->
  create fs s0 path cfg false = Some (fs, s0, E_STORAGE_PATH_ALREADY_EXISTS, ()).
Proof.
  intros (f & q & Hs & Hden & Hf & _). unfold create, readable.
  rewrite Hf. rewrite bool_decide_eq_true_2 by done.
  rewrite bool_decide_eq_true_2 by eauto. done.
Qed.

Lemma create_refuses_existing_path_witness :
  create (created 1).1 unopened test_db (mkConfig 64) false
  = Some ((created 1).1, unopened, E_STORAGE_PATH_ALREADY_EXISTS, ()).
Proof.
  apply (create_refuses_existing_path (created 1).1 (created 1).2 test_db unopened).
  apply created_1_ok.
Defined.

Lemma le_bytes_le_value bs :
  Forall (fun b => 0 <= b < 256) bs ->
  le_bytes (length bs) (le_value bs) = bs /\ 0 <= le_value bs < 256 ^ Z.of_nat (length bs).
Proof.
  induction 1 as [|b bs Hb _ [IH1 IH2]]; [simpl; split; [done|lia]|].
  cbn [length le_bytes le_value].
  replace (b + 256 * le_value bs) with (b + le_value bs * 256) by lia. split.
  - f_equal.
    + rewrite Z.mod_add by lia. apply Z.mod_small. lia.
    + rewrite Z.div_add by lia. rewrite Z.div_small by lia. done.
  - rewrite Nat2Z.inj_succ, Z.pow_succ_r by lia. nia.
Qed.

(** X8: [open] of an existing file reads the configuration record at its
    start and takes [size()] to be the whole extents of the file. *)
Theorem open_reads_header fs s path f :
  is_open (m_file s) = None ->
  path ∉ fs_denied fs ->
  fs_files fs !! path = Some f ->
  Z.of_nat sizeof_config <= f_len f <= max_off ->
  Forall (fun b => 0 <= b < 256) (file_read f 0 (Z.of_nat sizeof_config)) ->
  0 < getExtentSize (config_of_image (file_read f 0 (Z.of_nat sizeof_config))) ->
  exists s',
    open fs s path = Some (fs, s', E_NO_ERROR, ())
    /\ config s' = config_of_image (file_read f 0 (Z.of_nat sizeof_config))
    /\ size s' = f_len f / getExtentSize (config s')
    /\ store_ok fs s' path.
Proof.
  intros Hclosed Hden Hf Hlen Hbytes HE.
  set (c := config_of_image (file_read f 0 (Z.of_nat sizeof_config))) in *.
  destruct s as [[o q b] cfg sz filler]. simpl in Hclosed. subst o.
  assert (Hopen : open fs (mkStorage (mkStream None q b) cfg sz filler) path
                  = Some (fs, mkStorage (mkStream (Some path) (f_len f) false) c
                                        (f_len f / getExtentSize c)
                                        (resize filler (getExtentSize c)),
                          E_NO_ERROR, ())).
  { unfold open, FStream.open. simpl.
    rewrite bool_decide_eq_false_2 by done. rewrite Hf. simpl.
    unfold seekg. rewrite (seek_good fs path f Hf _ _ beg) by (simpl; rewrite max_off_eq; lia).
    rewrite (read_good fs path f Hf) by lia. simpl.
    replace (0 + 0) with 0 by lia.
    rewrite overlay_full
      by (rewrite file_read_length; unfold config_image; rewrite length_le_bytes; lia).
    fold c.
    rewrite (seek_good fs path f Hf _ _ end_) by (simpl; lia). simpl.
    unfold tellg. rewrite (tell_good fs path f Hf) by lia.
    rewrite max_off_eq in Hlen. rewrite to_u64_small by lia.
    rewrite bytesToExtent_pos by done. simpl. rewrite Z.add_0_r. done. }
  eexists. split; [exact Hopen|]. unfold size, config. simpl.
  split; [done|]. split; [done|].
  pose proof (getExtentSize_range c).
  destruct (le_bytes_le_value _ Hbytes) as [Hrt Hrange].
  rewrite file_read_length in Hrt, Hrange.
  exists f, (f_len f). simpl. split; [done|]. split; [done|]. split; [done|].
  split.
  { unfold wf_config, is_u32, c, config_of_image. simpl.
    rewrite Nat2Z.id in Hrange. change (256 ^ Z.of_nat sizeof_config) with (2 ^ 32) in Hrange.
    done. }
  split; [done|]. split; [apply length_resize; lia|]. split; [lia|]. split; [done|].
  split; [lia|]. unfold config_image, c, config_of_image. cbn [m_extentSizeKB].
  rewrite Nat2Z.id in Hrt. by rewrite Hrt.
Qed.

Lemma open_reads_header_witness :
  exists s',
    open other_fs unopened "foreign" = Some (other_fs, s', E_NO_ERROR, ())
    /\ config s' = config_of_image (file_read foreign_file 0 (Z.of_nat sizeof_config))
    /\ size s' = f_len foreign_file / getExtentSize (config s')
    /\ store_ok other_fs s' "foreign".
Proof.
  apply (open_reads_header other_fs unopened "foreign" foreign_file).
  - reflexivity.
  - set_solver.
  - reflexivity.
  - vm_compute. split; discriminate.
  - vm_compute. repeat constructor; discriminate.
  - vm_compute. reflexivity.
Defined.

(** X9: whenever [open] returns, it returns [E_STORAGE_INVALID_PATH] or
    [E_NO_ERROR], and [E_STORAGE_INVALID_PATH] exactly when the store
    already has a file open or the path cannot be opened; then it leaves
    the file system, [size()] and [config()] as they were and the stream
    failed. *)
Theorem open_invalid_path fs s path fs' s' r :
  open fs s path = Some (fs', s', r, ()) ->
  (r = E_STORAGE_INVALID_PATH \/ r = E_NO_ERROR)
  /\ (r = E_STORAGE_INVALID_PATH <->
      is_open (m_file s) <> None \/ path ∈ fs_denied fs \/ fs_files fs !! path = None)
  /\ (r = E_STORAGE_INVALID_PATH ->
      fs' = fs /\ size s' = size s /\ config s' = config s
      /\ failed (m_file s') = true).
Proof.
  unfold open, FStream.open.
  destruct (is_open (m_file s)) as [p|] eqn:Hopen.
  { simpl. intros [= <- <- <-]. split; [by left|]. split; [|done].
    split; [by left|done]. }
  destruct (decide (path ∈ fs_denied fs)) as [Hden|Hden].
  { rewrite bool_decide_eq_true_2 by done. simpl. intros [= <- <- <-].
    split; [by left|]. split; [|done]. split; [by right; left|done]. }
  rewrite bool_decide_eq_false_2 by done.
  destruct (fs_files fs !! path) as [f|] eqn:Hf.
  - simpl.
    destruct (FStream.read fs _ _) as [f3 bytes].
    destruct (bytesToExtent _ _) as [sz|]; [|done]. simpl. intros [= <- <- <-].
    split; [by right|]. split; [|done]. split; [done|].
    intros [?|[?|?]]; done.
  - simpl. intros [= <- <- <-]. split; [by left|]. split; [|done].
    split; [by right; right|done].
Qed.

Lemma open_invalid_path_witness :
  (E_STORAGE_INVALID_PATH = E_STORAGE_INVALID_PATH \/ E_STORAGE_INVALID_PATH = E_NO_ERROR)
  /\ (E_STORAGE_INVALID_PATH = E_STORAGE_INVALID_PATH <->
      is_open (m_file unopened) <> None \/ "missing" ∈ fs_denied other_fs
      \/ fs_files other_fs !! "missing" = None)
  /\ (E_STORAGE_INVALID_PATH = E_STORAGE_INVALID_PATH ->
      other_fs = other_fs /\ size (with_file unopened (setfail fresh)) = size unopened
      /\ config (with_file unopened (setfail fresh)) = config unopened
      /\ failed (m_file (with_file unopened (setfail fresh))) = true).
Proof.
  apply (open_invalid_path other_fs unopened "missing" other_fs
           (with_file unopened (setfail fresh)) E_STORAGE_INVALID_PATH).
  vm_compute. reflexivity.
Defined.

(** X10: [open] and [create] on a store that has a file open return
    [E_STORAGE_INVALID_PATH] without touching the file system, and leave
    the stream failed with the file still open: [close] then returns
    [E_STORAGE_NOT_OPEN] and changes nothing. *)
Theorem open_or_create_while_open fs s path path' cfg overwrite :
  store_ok fs s path ->
  overwrite = true \/ readable fs path' = false ->
  exists s',
    open fs s path' = Some (fs, s', E_STORAGE_INVALID_PATH, ())
    /\ create fs s path' cfg overwrite = Some (fs, s', E_STORAGE_INVALID_PATH, ())
    /\ size s' = size s /\ config s' = config s
    /\ is_open (m_file s') = Some path /\ failed (m_file s') = true
    /\ close fs s' = (fs, s', E_STORAGE_NOT_OPEN).
Proof.
  intros (f & q & Hs & _) Hov.
  destruct s as [mf c sz filler]. simpl in Hs. subst mf.
  eexists. split; [reflexivity|]. split.
  - unfold create.
    assert (negb overwrite && readable fs path' = false) as ->.
    { destruct Hov as [->| ->]; [done|apply andb_false_r]. }
    reflexivity.
  - done.
Qed.

Lemma open_or_create_while_open_witness :
  exists s',
    open (created 1).1 (created 1).2 "other.db"
    = Some ((created 1).1, s', E_STORAGE_INVALID_PATH, ())
    /\ create (created 1).1 (created 1).2 "other.db" (mkConfig 4) true
       = Some ((created 1).1, s', E_STORAGE_INVALID_PATH, ())
    /\ size s' = size (created 1).2 /\ config s' = config (created 1).2
    /\ is_open (m_file s') = Some test_db /\ failed (m_file s') = true
    /\ close (created 1).1 s' = ((created 1).1, s', E_STORAGE_NOT_OPEN).
Proof.
  apply (open_or_create_while_open (created 1).1 (created 1).2 test_db "other.db"
           (mkConfig 4) true).
  - apply created_1_ok.
  - by left.
Defined.

(** X11: [open] does not notice a file shorter than the configuration
    record: the short [read] fails the stream, [tellg] gives -1, and
    [open] still returns [E_NO_ERROR], with [size()] the quotient of
    2^64 - 1 by the extent size; after that [reserve] returns
    [E_STORAGE_CRITICAL_ERROR] and [close] [E_STORAGE_NOT_OPEN]. *)
Theorem open_truncated_header fs s path f :
  is_open (m_file s) = None ->
  path ∉ fs_denied fs ->
  fs_files fs !! path = Some f ->
  0 <= f_len f < Z.of_nat sizeof_config ->
  0 < getExtentSize
        (config_of_image (overlay (file_read f 0 (f_len f)) (config_image (config s)))) ->
  exists s',
    open fs s path = Some (fs, s', E_NO_ERROR, ())
    /\ failed (m_file s') = true
    /\ config s'
       = config_of_image (overlay (file_read f 0 (f_len f)) (config_image (config s)))
    /\ size s' = (2 ^ 64 - 1) / getExtentSize (config s')
    /\ (forall n e0, reserve fs s' n e0 = Some (fs, s', E_STORAGE_CRITICAL_ERROR, e0))
    /\ close fs s' = (fs, s', E_STORAGE_NOT_OPEN).
Proof.
  intros Hclosed Hden Hf Hlen HE. unfold config in *.
  destruct s as [[o q b] cfg sz filler]. simpl in Hclosed, HE |- *. subst o.
  set (c := config_of_image (overlay (file_read f 0 (f_len f)) (config_image cfg))) in *.
  assert (0 <= f_len f <= max_off) as Hlen'
    by (rewrite max_off_eq; unfold sizeof_config in Hlen; lia).
  assert (Hopen : open fs (mkStorage (mkStream None q b) cfg sz filler) path
                  = Some (fs, mkStorage (mkStream (Some path) (f_len f) true) c
                                        ((2 ^ 64 - 1) / getExtentSize c)
                                        (resize filler (getExtentSize c)),
                          E_NO_ERROR, ())).
  { unfold open, FStream.open. simpl.
    rewrite bool_decide_eq_false_2 by done. rewrite Hf. simpl.
    unfold seekg. rewrite (seek_good fs path f Hf _ _ beg) by (simpl; lia).
    unfold FStream.read, the_file. simpl. rewrite Hf. simpl.
    replace (Z.of_nat sizeof_config `min` (0 `max` (f_len f - (0 + 0)))) with (f_len f) by lia.
    rewrite bool_decide_eq_false_2 by lia. simpl.
    replace (0 + 0) with 0 by lia. fold c.
    unfold seek, tellg, tell. simpl.
    rewrite bytesToExtent_pos by done. simpl. rewrite Z.add_0_l. done. }
  eexists. split; [exact Hopen|]. simpl. done.
Qed.

Lemma open_truncated_header_witness :
  exists s',
    open other_fs closed_1k "short" = Some (other_fs, s', E_NO_ERROR, ())
    /\ failed (m_file s') = true
    /\ config s'
       = config_of_image (overlay (file_read short_file 0 (f_len short_file))
                                  (config_image (config closed_1k)))
    /\ size s' = (2 ^ 64 - 1) / getExtentSize (config s')
    /\ (forall n e0,
          reserve other_fs s' n e0 = Some (other_fs, s', E_STORAGE_CRITICAL_ERROR, e0))
    /\ close other_fs s' = (other_fs, s', E_STORAGE_NOT_OPEN).
Proof.
  apply (open_truncated_header other_fs closed_1k "short" short_file).
  - reflexivity.
  - set_solver.
  - reflexivity.
  - vm_compute. split; [discriminate|reflexivity].
  - vm_compute. reflexivity.
Defined.

(** X12: [create] with an extent size of zero bytes ([extentSizeKB] a
    multiple of 2^22, 0 among them) divides by zero in [reserve] once the
    file is open: the call is undefined. *)
Theorem create_zero_extent_size fs s path cfg overwrite :
  getExtentSize cfg = 0 ->
  is_open (m_file s) = None ->
  path ∉ fs_denied fs ->
  overwrite = true \/ readable fs path = false ->
  create fs s path cfg overwrite = None.
Proof.
  intros HE Hclosed Hden Hov. unfold create.
  assert (negb overwrite && readable fs path = false) as ->.
  { destruct Hov as [->| ->]; [done|apply andb_false_r]. }
  unfold FStream.open. rewrite Hclosed. rewrite bool_decide_eq_false_2 by done. simpl.
  set (fs0 := mkFS _ _).
  assert (Hf0 : fs_files fs0 !! path = Some empty_file) by apply lookup_insert_eq.
  unfold reserve. simpl. unfold seekp.
  rewrite (seek_good fs0 path _ Hf0 _ _ end_) by (simpl; rewrite max_off_eq; lia).
  simpl. unfold bytesToExtent. simpl. rewrite bool_decide_eq_true_2 by done. done.
Qed.

Lemma create_zero_extent_size_witness :
  create empty_fs unopened test_db (mkConfig (2 ^ 22)) true = None.
Proof.
  apply create_zero_extent_size.
  - reflexivity.
  - reflexivity.
  - set_solver.
  - by left.
Defined.

(** X13: on a store whose stream has failed or has no file open,
    [reserve] returns [E_STORAGE_CRITICAL_ERROR] and leaves its
    [extent] argument alone, [read] and [write] return
    [E_STORAGE_OUT_OF_BOUNDS_EXTENT] for every extent; none of them
    changes the file system, [size()] or [config()]. *)
Theorem operations_on_unusable_stream fs s n e0 buf e :
  is_open (m_file s) = None \/ failed (m_file s) = true ->
  (exists s', reserve fs s n e0 = Some (fs, s', E_STORAGE_CRITICAL_ERROR, e0)
              /\ size s' = size s /\ config s' = config s)
  /\ (exists s', read fs s buf e = Some (fs, s', E_STORAGE_OUT_OF_BOUNDS_EXTENT, buf)
                 /\ size s' = size s /\ config s' = config s)
  /\ (exists s', write fs s buf e = Some (fs, s', E_STORAGE_OUT_OF_BOUNDS_EXTENT, ())
                 /\ size s' = size s /\ config s' = config s).
Proof.
  intros Hbad.
  assert (forall off dir, failed (seek fs (m_file s) off dir) = true) as Hseek.
  { intros off dir. destruct (m_file s) as [o q b]. simpl in Hbad.
    destruct Hbad as [->| ->]; [apply seek_closed|done]. }
  split; [|split].
  - unfold reserve, seekp. rewrite Hseek. eauto.
  - unfold read, seekg.
    destruct (bool_decide (e = 0) || bool_decide (e >= m_size s)); [eauto|].
    rewrite Hseek. eauto.
  - unfold write, seekp.
    destruct (bool_decide (e = 0) || bool_decide (e >= m_size s)); [eauto|].
    rewrite Hseek. eauto.
Qed.

Lemma operations_on_unusable_stream_witness :
  (exists s', reserve (created 1).1 unopened 1 5
              = Some ((created 1).1, s', E_STORAGE_CRITICAL_ERROR, 5)
              /\ size s' = size unopened /\ config s' = config unopened)
  /\ (exists s', read (created 1).1 unopened sevens 1
                 = Some ((created 1).1, s', E_STORAGE_OUT_OF_BOUNDS_EXTENT, sevens)
                 /\ size s' = size unopened /\ config s' = config unopened)
  /\ (exists s', write (created 1).1 unopened sevens 1
                 = Some ((created 1).1, s', E_STORAGE_OUT_OF_BOUNDS_EXTENT, ())
                 /\ size s' = size unopened /\ config s' = config unopened).
Proof.
  apply (operations_on_unusable_stream (created 1).1 unopened 1 5 sevens 1).
  by left.
Defined.
End StorageContentsFacts.

(** ** Contents of the tree *)
Module TreeContentsFacts.
Import CInt Bytes Mem BufferPool BTree TreeSpec TreeExamples TreeContents TreeScenarios.
Import CIntFacts BytesFacts MemFacts BTreeFacts.

Section Search.
Context {T : Types}.

Lemma stored_leaf pages pId pg key v :
  pages !! pId = Some pg ->
  stored pages 0 pId key v <->
  m_type (pg_header pg) = E_LEAF
  /\ exists i, 0 <= i < m_numElements (pg_header pg)
               /\ key_at pg (loaded pId pg) i = Some key
               /\ value_at pg (loaded pId pg) i = Some v.
Proof. intros Hpg. simpl. by rewrite Hpg. Qed.

Lemma stored_internal pages h pId pg key v :
  pages !! pId = Some pg ->
  stored pages (S h) pId key v <->
  m_type (pg_header pg) = E_INTERNAL
  /\ exists i c, 0 <= i < m_maxNumElements (pg_header pg)
                 /\ child_at pg (loaded pId pg) i = Some c
                 /\ c <> INVALID_PAGE_ID
                 /\ stored pages h c key v.
Proof. intros Hpg. simpl. by rewrite Hpg. Qed.

(** In an internal node that satisfies the invariants and has a child,
    [btree_next_internal] returns the child whose range holds [key]. *)
Lemma next_internal_bracket bp node key pg :
  page_of bp node = Some pg ->
  m_type (pg_header pg) = E_INTERNAL ->
  node_in_bounds pg node ->
  valid_prefix pg node ->
  1 <= m_numElements (pg_header pg) ->
  exists r, btree_next_internal bp node key = Some r
            /\ 0 <= r < m_numElements (pg_header pg)
            /\ in_child_range pg node key r.
Proof.
  intros Hpage Hty Hb Hpre Hn.
  destruct (next_internal_stops bp node key pg Hpage Hty Hb)
    as (r & Hr & Hrb & H1 & Hstop).
  pose proof Hb as (ks & es & _ & _ & _ & _ & _ & Hnm & _).
  exists r. split; [done|].
  destruct (decide (m_numElements (pg_header pg) <= 1)) as [Hle|Hgt].
  { rewrite (H1 Hle). split; [lia|]. split; intros; lia. }
  destruct (Hstop ltac:(lia)) as (Hr0 & Hpass & Hfail).
  assert (forall j, 0 <= j -> j + 1 < m_maxNumElements (pg_header pg) ->
                    scan_test pg node key j = true ->
                    j + 1 < m_numElements (pg_header pg)
                    /\ exists k, key_at pg node j = Some k /\ k <= key) as Htrue.
  { intros j Hj Hin Ht. unfold scan_test in Ht.
    destruct (child_at pg node (j + 1)) as [c|] eqn:Hc; [|done].
    destruct (key_at pg node j) as [k|] eqn:Hk; [|done].
    apply andb_true_iff in Ht as [Hc' Hk'].
    apply negb_true_iff, bool_decide_eq_false in Hc'.
    apply bool_decide_eq_true in Hk'.
    split; [|exists k; split; [done|lia]]. by apply (Hpre (j + 1) c); [lia|..]. }
  assert (r < m_numElements (pg_header pg)) as Hrn.
  { destruct (decide (r = 0)) as [->|Hr1]; [lia|].
    destruct (Htrue (r - 1)) as [Hlt _]; [lia|lia|apply Hpass; lia|]. lia. }
  split; [lia|]. split.
  - intros k Hr1 Hk. destruct (Htrue (r - 1)) as (_ & k' & Hk' & Hle);
      [lia|lia|apply Hpass; lia|]. congruence.
  - intros k Hlt Hk. specialize (Hfail ltac:(lia)). unfold scan_test in Hfail.
    destruct (child_at_in_bounds pg node (r + 1) Hb Hty) as [c Hc]; [lia|].
    rewrite Hc, Hk in Hfail.
    assert (c <> INVALID_PAGE_ID) as Hc' by (apply (Hpre (r + 1) c); [lia|done|lia]).
    rewrite (bool_decide_eq_false_2 (c = INVALID_PAGE_ID)) in Hfail by done.
    simpl in Hfail. apply bool_decide_eq_false in Hfail. lia.
Qed.

End Search.

Section Finding.
Context {T : Types}.

Lemma valid_prefix_views node pId pg :
  views node pId pg -> valid_prefix pg (loaded pId pg) -> valid_prefix pg node.
Proof.
  intros Hv Hp i c Hi Hc. apply Hp; [done|].
  by rewrite <- (views_child_at node pId pg).
Qed.

End Finding.

Lemma left_ascending pId : @ascending u64_u64 left_page (loaded pId left_page) 2.
Proof.
  intros i j ki kj Hi Hj Hki Hkj.
  assert (i = 0) as -> by lia. assert (j = 1) as -> by lia.
  vm_compute in Hki, Hkj. injection Hki as <-. injection Hkj as <-. done.
Qed.

Lemma right_ascending pId : @ascending u64_u64 right_page (loaded pId right_page) 3.
Proof.
  intros i j ki kj Hi Hj Hki Hkj.
  assert (i = 0 \/ i = 1) as [-> | ->] by lia;
    assert (j = 1 \/ j = 2) as [-> | ->] by lia; try lia;
    vm_compute in Hki, Hkj; injection Hki as <-; injection Hkj as <-; done.
Qed.

Lemma small_search_ok : @search_ok u64_u64 small_pages 1 1.
Proof.
  eapply (@search_internal u64_u64 _ 1 root_page); try done.
  - apply (small_in_bounds E_INTERNAL 2); done.
  - intros i c Hi Hc. cbn [root_page small_page pg_header m_maxNumElements] in Hi.
    cbn [root_page small_page pg_header m_numElements].
    assert (i = 0 \/ i = 1 \/ i = 2 \/ i = 3) as [-> | [-> | [-> | ->]]] by lia;
      vm_compute in Hc; injection Hc as <-; split; try done; try lia.
  - intros i j ki kj Hi Hj. cbn [root_page small_page pg_header m_numElements] in Hj. lia.
  - intros i c Hi Hc. cbn [root_page small_page pg_header m_numElements] in Hi.
    assert (i = 0 \/ i = 1) as [-> | ->] by lia; vm_compute in Hc; injection Hc as <-.
    + eapply (@search_leaf u64_u64 _ 2 left_page); try done.
      * apply (small_in_bounds E_LEAF 2); done.
      * apply left_ascending.
    + eapply (@search_leaf u64_u64 _ 3 right_page); try done.
      * apply (small_in_bounds E_LEAF 3); done.
      * apply right_ascending.
  - intros i c key v Hi Hc Hst.
    cbn [root_page small_page pg_header m_numElements] in Hi.
    assert (i = 0 \/ i = 1) as [-> | ->] by lia; vm_compute in Hc; injection Hc as <-.
    + apply (@stored_leaf u64_u64 _ _ left_page) in Hst as (_ & j & Hj & Hk & _);
        [|done].
      cbn [left_page small_page pg_header m_numElements] in Hj.
      split; intros k Hlt Hk'; [lia|]. vm_compute in Hk'. injection Hk' as <-.
      assert (j = 0 \/ j = 1) as [-> | ->] by lia; vm_compute in Hk;
        injection Hk as <-; done.
    + apply (@stored_leaf u64_u64 _ _ right_page) in Hst as (_ & j & Hj & Hk & _);
        [|done].
      cbn [right_page small_page pg_header m_numElements] in Hj.
      split; intros k Hlt Hk'; [|cbn [root_page small_page pg_header m_numElements] in Hlt; lia].
      vm_compute in Hk'. injection Hk' as <-.
      assert (j = 0 \/ j = 1 \/ j = 2) as [-> | [-> | ->]] by lia; vm_compute in Hk;
        injection Hk as <-; done.
Qed.

#[local] Arguments node_layout : simpl never.
#[local] Arguments to_u64 : simpl never.
#[local] Arguments memset : simpl never.
#[local] Arguments Z.mul : simpl never.

Lemma untouched_refl bp : untouched bp bp.
Proof. done. Qed.

Lemma untouched_trans bp1 bp2 bp3 :
  untouched bp1 bp2 -> untouched bp2 bp3 -> untouched bp1 bp3.
Proof. intros (? & ? & ?) (? & ? & ?). repeat split; congruence. Qed.

Lemma pin_untouched bp pId h : untouched bp (pin bp pId h).1.1.
Proof. unfold pin. by destruct (bp_pages bp !! pId). Qed.

Lemma unpin_untouched bp pId : untouched bp (unpin bp pId).1.
Proof. unfold unpin. by destruct (pin_count bp pId). Qed.

Section Nodes.
Context {T : Types}.

Lemma load_node_untouched bp pId node bp1 err node1 :
  btree_load_node bp pId node = Some (bp1, err, node1) -> untouched bp bp1.
Proof.
  unfold btree_load_node. case_bool_decide; [done|].
  pose proof (pin_untouched bp pId (m_handler node)) as Hpin.
  destruct (pin bp pId (m_handler node)) as [[bp0 e] h]. simpl in Hpin.
  destruct (isError e); [by intros [= <- <- <-]|].
  destruct (bp_pages bp0 !! m_pId h) as [pg|]; [|done]. simpl.
  destruct (_ || _).
  - intros [= <- <- <-]. eapply untouched_trans; [done|apply unpin_untouched].
  - by intros [= <- <- <-].
Qed.

(** What a successful [btree_create_node] leaves: the allocated page,
    pinned once more, with a header that [btree_load_node] accepts and an
    empty node whose handle views it. *)
Lemma create_node_page bp type node bp' node' :
  btree_create_node bp type node = Some (bp', E_NO_ERROR, node') ->
  exists pId pg0 rest pg,
    bp_free bp = (pId, pg0) :: rest
    /\ bp_pages bp' !! pId = Some pg
    /\ views node' pId pg
    /\ sizes_match pg
    /\ m_type (pg_header pg) = type
    /\ m_numElements (pg_header pg) = 0
    /\ node_layout (getPageSize bp)
       = (m_maxNumElements (pg_header pg), m_keyStart (pg_header pg),
          m_elementStart (pg_header pg))
    /\ pin_count bp' pId = S (pin_count bp pId)
    /\ bp_free bp' = rest.
Proof.
  unfold btree_create_node, alloc.
  destruct (bp_free bp) as [|[pId pg0] rest] eqn:Hfree; [intros [=]|].
  cbv beta iota. rewrite bool_decide_eq_true_2 by done. cbn [negb].
  unfold getPageSize. cbn [bp_pageSize bp_pages m_pId].
  rewrite lookup_insert_eq. cbn [mbind option_bind].
  destruct (node_layout (bp_pageSize bp)) as [[m ks] es].
  destruct (memset (pg_bytes pg0) ks 0 _) as [buf1|]; [|intros [=]].
  cbn [mbind option_bind].
  destruct type.
  - destruct (init_children _ _ _ _) as [buf2|]; [|intros [=]].
    cbn [mbind option_bind]. intros [= <- <-].
    exists pId, pg0, rest. eexists. split; [done|].
    split; [unfold set_page; cbn [bp_pages]; apply lookup_insert_eq|].
    cbn. unfold pin_count at 1. cbn. rewrite lookup_insert_eq. done.
  - destruct (memset buf1 es 0 _) as [buf2|]; [|intros [=]].
    cbn [mbind option_bind]. intros [= <- <-].
    exists pId, pg0, rest. eexists. split; [done|].
    split; [unfold set_page; cbn [bp_pages]; apply lookup_insert_eq|].
    cbn. unfold pin_count at 1. cbn. rewrite lookup_insert_eq. done.
Qed.
End Nodes.

Section Creation2.
Context {T : Types}.

Lemma memset_in_range buf off c n :
  in_range buf off n ->
  memset buf off c n = Some (splice buf off (replicate (Z.to_nat n) c)).
Proof. intros H. unfold memset. by rewrite decide_True. Qed.

Lemma round_up_lt x e : 0 < e -> round_up x e < x + e.
Proof. intros He. unfold round_up. Z.to_euclidean_division_equations. nia. Qed.

(** X14: with a frame as long as the page, keys of positive size, values no
    wider than [size_t] and a page that holds the header and one slot,
    [btree_create_node] succeeds; the key array starts after the header,
    ends before the element array, and the element array ends within the
    page. *)
Theorem create_node_fits_page bp type node pId pg0 rest :
  bp_free bp = (pId, pg0) :: rest ->
  Z.of_nat (length (pg_bytes pg0)) = getPageSize bp ->
  0 < sizeof_K ->
  (type = E_LEAF -> 0 < sizeof_V <= sizeof_size_t) ->
  sizeof_BTNodePageHeader + sizeof_K + sizeof_size_t <= getPageSize bp < 2 ^ 31 ->
  exists bp' node' pg,
    btree_create_node bp type node = Some (bp', E_NO_ERROR, node')
    /\ bp_pages bp' !! pId = Some pg
    /\ Z.of_nat (length (pg_bytes pg)) = getPageSize bp
    /\ 0 <= m_maxNumElements (pg_header pg)
    /\ sizeof_BTNodePageHeader <= m_keyStart (pg_header pg)
    /\ m_keyStart (pg_header pg) + sizeof_K * m_maxNumElements (pg_header pg)
       <= m_elementStart (pg_header pg)
    /\ m_elementStart (pg_header pg)
       + element_size type * m_maxNumElements (pg_header pg)
       <= getPageSize bp.
Proof.
  intros Hfree Hlen Hk Hv HP. unfold btree_create_node, alloc. rewrite Hfree.
  cbv beta iota. rewrite bool_decide_eq_true_2 by done. cbn [negb].
  unfold getPageSize in *. cbn [bp_pageSize bp_pages m_pId].
  rewrite lookup_insert_eq. rewrite node_layout_size_t by done.
  unfold spec_layout. simpl.
  unfold sizeof_BTNodePageHeader, sizeof_size_t in *.
  set (k := sizeof_K) in *. set (P := bp_pageSize bp) in *.
  set (a := P - 48 - (k + 8)).
  assert (0 <= a / (k + 8)) as Hm0 by (apply Z.div_pos; lia).
  assert ((k + 8) * (a / (k + 8)) <= a) as Hm1 by (apply Z.mul_div_le; lia).
  set (m := a / (k + 8)) in *.
  set (ks := 48 `max` k).
  pose proof (round_up_ge (ks + k * m) 8 ltac:(lia)) as Hes.
  pose proof (round_up_lt (ks + k * m) 8 ltac:(lia)) as Hes'.
  set (es := round_up (ks + k * m) 8) in *.
  rewrite (to_u64_small m) by nia. rewrite (to_u64_small (k * m)) by nia.
  assert (in_range (pg_bytes pg0) ks (k * m)) as Hr1 by (unfold in_range; nia).
  rewrite (memset_in_range _ _ _ _ Hr1). simpl.
  assert (length (splice (pg_bytes pg0) ks (replicate (Z.to_nat (k * m)) 0))
          = length (pg_bytes pg0)) as Hl1.
  { apply length_splice. rewrite length_replicate. unfold in_range in Hr1. lia. }
  destruct type.
  - simpl. eexists _, _, _. split; [done|].
    split; [unfold set_page; simpl; apply lookup_insert_eq|]. simpl.
    rewrite Hl1. unfold sizeof_pageId_t. repeat split; nia.
  - specialize (Hv eq_refl). simpl.
    rewrite (to_u64_small (sizeof_V * m)) by nia.
    assert (in_range (splice (pg_bytes pg0) ks (replicate (Z.to_nat (k * m)) 0))
                     es (sizeof_V * m)) as Hr2.
    { unfold in_range. rewrite Hl1. nia. }
    rewrite (memset_in_range _ _ _ _ Hr2). simpl.
    eexists _, _, _. split; [done|].
    split; [unfold set_page; simpl; apply lookup_insert_eq|]. simpl.
    rewrite length_splice
      by (rewrite length_replicate, Hl1; unfold in_range in Hr2; lia).
    rewrite Hl1. repeat split; nia.
Qed.
End Creation2.

Section Lookups.
Context {T : Types}.

(** X18: on an internal node of a tree that satisfies the search
    invariants and has a child, [btree_next_internal] returns the index
    of a child below [numElements], that child is a page of the tree, and
    [key] lies between the separators around it. *)
Theorem next_internal_selects_child h bp pId pg node key :
  search_ok (bp_pages bp) (S h) pId ->
  bp_pages bp !! pId = Some pg ->
  views node pId pg ->
  1 <= m_numElements (pg_header pg) ->
  exists r c, btree_next_internal bp node key = Some r
              /\ 0 <= r < m_numElements (pg_header pg)
              /\ child_at pg node r = Some c
              /\ c <> INVALID_PAGE_ID
              /\ search_ok (bp_pages bp) h c
              /\ in_child_range pg node key r.
Proof.
  intros Hs Hpg Hv Hn.
  inversion Hs as [|pId' pg' h' Hne Hpg' Hty Hsz Hb Hpre Hasc Hkids Hrange]; subst.
  assert (pg' = pg) as -> by congruence.
  pose proof (views_page_of bp node pId pg Hv Hpg) as Hpage.
  pose proof (views_in_bounds node pId pg Hv Hb) as Hb'.
  destruct (next_internal_bracket bp node key pg Hpage Hty Hb'
              (valid_prefix_views _ _ _ Hv Hpre) Hn) as (r & Hr & Hrn & Hrr).
  pose proof Hb as (_ & _ & _ & _ & _ & _ & _ & Hnm & _).
  destruct (child_at_in_bounds pg node r Hb' Hty ltac:(lia)) as [c Hc].
  exists r, c. split; [done|]. split; [done|]. split; [done|].
  rewrite (views_child_at node pId pg) in Hc by done.
  split; [apply (Hpre r c); [lia|done|lia]|]. split; [by eapply Hkids|done].
Qed.

(** X20: loading a resident page with matching sizes and unloading the
    node again succeeds, leaves every pin count, the frames and the dirty
    set as they were, and nulls the pointers of the node. *)
Theorem load_unload_round_trip bp pId node pg :
  pId <> INVALID_PAGE_ID ->
  bp_pages bp !! pId = Some pg ->
  sizes_match pg ->
  exists bp1 node1 bp2,
    btree_load_node bp pId node = Some (bp1, E_NO_ERROR, node1)
    /\ btree_unload_node bp1 node1 = (bp2, E_NO_ERROR, nulled node1)
    /\ p_pageHeader (nulled node1) = None /\ p_keys (nulled node1) = None
    /\ p_children_values (nulled node1) = None
    /\ same_pins bp bp2 /\ bp_dirty bp2 = bp_dirty bp.
Proof.
  intros Hne Hpg Hm.
  destruct (load_node_match bp pId node pg Hne Hpg Hm) as (bp1 & Hload & Hp1 & Hc1 & Ho1).
  destruct (unpin_pinned bp1 pId _ Hc1) as (bp2 & Hu & Hp2 & Hc2 & Ho2).
  eexists bp1, _, bp2. split; [exact Hload|].
  pose proof (load_node_untouched _ _ _ _ _ _ Hload) as (Hd1 & _).
  pose proof (unpin_untouched bp1 pId) as (Hd2 & _). rewrite Hu in Hd2.
  split; [|repeat split; try done].
  - unfold btree_unload_node. cbn. rewrite Hu. done.
  - congruence.
  - intros p. destruct (decide (p = pId)) as [->|Hp]; [done|].
    rewrite Ho2, Ho1 by done. done.
  - simpl in Hd2. congruence.
Qed.

(** X21: a page written by [btree_create_node] is accepted by
    [btree_load_node] for the same [K] and [V]: the load returns
    [E_NO_ERROR], never [E_BTREE_CORRUPTED_PAGE], with the pointers of the
    created node, and pins the page once more. *)
Theorem created_node_loads bp type node bp' node' other :
  btree_create_node bp type node = Some (bp', E_NO_ERROR, node') ->
  m_pId (m_handler node') <> INVALID_PAGE_ID ->
  exists bp1 node1,
    btree_load_node bp' (m_pId (m_handler node')) other
    = Some (bp1, E_NO_ERROR, node1)
    /\ m_handler node1 = m_handler node'
    /\ p_pageHeader node1 = p_pageHeader node'
    /\ p_keys node1 = p_keys node'
    /\ p_children_values node1 = p_children_values node'
    /\ m_dirty node1 = false
    /\ pin_count bp1 (m_pId (m_handler node'))
       = S (S (pin_count bp (m_pId (m_handler node')))).
Proof.
  intros Hc Hne.
  destruct (create_node_page _ _ _ _ _ Hc)
    as (pId & pg0 & rest & pg & _ & Hpg & (Hh & Hp & Hk & He) & Hm & _ & _ & _ & Hpin & _).
  rewrite Hh in *. cbn [m_pId] in *.
  destruct (load_node_match bp' pId other pg Hne Hpg Hm) as (bp1 & Hload & _ & Hc1 & _).
  eexists bp1, _. split; [exact Hload|]. cbn. rewrite Hp, Hk, He, Hc1, Hpin. done.
Qed.

(** X23: unloading a node marked dirty. If the pool does not hold the
    page, [setPageDirty] fails and the function returns that error at
    once: nothing is unpinned and the pointers are not nulled. If the
    page is resident and pinned, the page joins the dirty set, one pin is
    dropped, the frames stay and the pointers are nulled. *)
Theorem unload_dirty_node bp node :
  m_dirty node = true ->
  (bp_pages bp !! m_pId (m_handler node) = None ->
   btree_unload_node bp node = (bp, E_BUFPOOL_FAILURE, node))
  /\ (forall pg n,
        bp_pages bp !! m_pId (m_handler node) = Some pg ->
        pin_count bp (m_pId (m_handler node)) = S n ->
        exists bp',
          btree_unload_node bp node = (bp', E_NO_ERROR, nulled node)
          /\ m_pId (m_handler node) ∈ bp_dirty bp'
          /\ pin_count bp' (m_pId (m_handler node)) = n
          /\ (forall p, p <> m_pId (m_handler node) ->
                        pin_count bp' p = pin_count bp p)
          /\ bp_pages bp' = bp_pages bp).
Proof.
  intros Hd. unfold btree_unload_node, setPageDirty. rewrite Hd. split.
  - intros ->. done.
  - intros pg n -> Hpin. cbn.
    unfold unpin, pin_count in *. cbn. rewrite Hpin.
    eexists. split; [done|]. cbn. split; [set_solver|].
    rewrite lookup_insert_eq. split; [done|]. split; [|done].
    intros p Hp. by rewrite lookup_insert_ne.
Qed.
(** X26: on a leaf whose first [numElements] keys are strictly
    ascending, [btree_next_leaf] returns the leftmost slot below
    [numElements] whose key is not below [key], else [numElements]; when
    [key] is in one of the first [numElements] slots it returns that
    slot. *)
Theorem next_leaf_finds_slot bp node key pg :
  page_of bp node = Some pg ->
  m_type (pg_header pg) = E_LEAF ->
  node_in_bounds pg node ->
  ascending pg node (m_numElements (pg_header pg)) ->
  exists i,
    btree_next_leaf bp node key = Some i
    /\ leftmost_ge pg node key i
    /\ forall j, 0 <= j < m_numElements (pg_header pg) ->
                 key_at pg node j = Some key -> i = j.
Proof.
  intros Hpage Hty Hb Hasc.
  destruct (next_leaf_leftmost bp node key pg Hpage Hty Hb) as (i & Hi & Hl).
  exists i. split; [done|]. split; [done|]. intros j Hj Hk.
  destruct Hl as (Hi' & Hbelow & Hat).
  destruct (Z.lt_trichotomy i j) as [Hlt|[Heq|Hgt]]; [exfalso|done|exfalso].
  - destruct (Hat ltac:(lia)) as (k & Hk' & Hge).
    pose proof (Hasc i j k key ltac:(lia) ltac:(lia) Hk' Hk). lia.
  - destruct (Hbelow j ltac:(lia)) as (k & Hk' & Hlt').
    assert (k = key) by congruence. lia.
Qed.

(** X27: [btree_load_node] of a page id other than [INVALID_PAGE_ID]
    returns; it returns [E_BTREE_CORRUPTED_PAGE] exactly when the pool
    holds the page and the [keySize] or the [elementSize] of its header
    is not the one expected, and then every pin count and frame is as
    before the call: the pin it took has been dropped. *)
Theorem load_node_corrupted_page bp pId node :
  pId <> INVALID_PAGE_ID ->
  exists bp1 err1 node1,
    btree_load_node bp pId node = Some (bp1, err1, node1)
    /\ (err1 = E_BTREE_CORRUPTED_PAGE <->
        exists pg, bp_pages bp !! pId = Some pg
                   /\ (m_keySize (pg_header pg) <> sizeof_K
                       \/ m_elementSize (pg_header pg)
                          <> element_size (m_type (pg_header pg))))
    /\ (err1 = E_BTREE_CORRUPTED_PAGE -> same_pins bp bp1).
Proof.
  intros Hne.
  destruct (bp_pages bp !! pId) as [pg|] eqn:Hpg.
  - destruct (decide (sizes_match pg)) as [Hm|Hm].
    + destruct (load_node_match bp pId node pg Hne Hpg Hm) as (bp1 & Hload & _).
      eexists _, _, _. split; [exact Hload|]. split; [|done]. split; [done|].
      intros (pg' & [= <-] & Hbad). destruct Hm as [Hk He], Hbad; done.
    + destruct (load_node_mismatch bp pId node pg Hne Hpg Hm)
        as (bp1 & node1 & Hload & Hsame).
      eexists _, _, _. split; [exact Hload|]. split; [|done]. split; [|done].
      intros _. exists pg. split; [done|]. unfold sizes_match in Hm.
      destruct (decide (m_keySize (pg_header pg) = sizeof_K)); [right|left]; tauto.
  - rewrite load_node_absent by done.
    eexists _, _, _. split; [reflexivity|]. split; [|done]. split; [done|].
    by intros (pg' & [=] & _).
Qed.
End Lookups.

Lemma create_node_fits_page_witness :
  exists bp' node' pg,
    @btree_create_node u64_u64 (small_pool 0) E_LEAF uninitialised
    = Some (bp', E_NO_ERROR, node')
    /\ bp_pages bp' !! 4 = Some pg
    /\ Z.of_nat (length (pg_bytes pg)) = 128
    /\ 0 <= m_maxNumElements (pg_header pg)
    /\ 48 <= m_keyStart (pg_header pg)
    /\ m_keyStart (pg_header pg) + 8 * m_maxNumElements (pg_header pg)
       <= m_elementStart (pg_header pg)
    /\ m_elementStart (pg_header pg) + 8 * m_maxNumElements (pg_header pg) <= 128.
Proof.
  apply (@create_node_fits_page u64_u64 (small_pool 0) E_LEAF uninitialised 4
           (mkPage blank_header (replicate 128 0)) []).
  - reflexivity.
  - reflexivity.
  - reflexivity.
  - intros _. vm_compute. split; [reflexivity|discriminate].
  - vm_compute. split; [discriminate|reflexivity].
Defined.

Lemma next_internal_selects_child_witness :
  exists r c, @btree_next_internal u64_u64 (small_pool 0) root 25 = Some r
              /\ 0 <= r < 2
              /\ child_at root_page root r = Some c
              /\ c <> no_page
              /\ @search_ok u64_u64 small_pages 0 c
              /\ @in_child_range u64_u64 root_page root 25 r.
Proof.
  apply (@next_internal_selects_child u64_u64 0 (small_pool 0) 1 root_page root 25).
  - apply small_search_ok.
  - reflexivity.
  - apply views_loaded.
  - vm_compute. discriminate.
Defined.

Lemma load_unload_round_trip_witness :
  exists bp1 node1 bp2,
    @btree_load_node u64_u64 (small_pool 0) 2 uninitialised = Some (bp1, E_NO_ERROR, node1)
    /\ btree_unload_node bp1 node1 = (bp2, E_NO_ERROR, nulled node1)
    /\ p_pageHeader (nulled node1) = None /\ p_keys (nulled node1) = None
    /\ p_children_values (nulled node1) = None
    /\ same_pins (small_pool 0) bp2 /\ bp_dirty bp2 = bp_dirty (small_pool 0).
Proof.
  apply (@load_unload_round_trip u64_u64 (small_pool 0) 2 uninitialised left_page).
  - vm_compute. discriminate.
  - reflexivity.
  - split; reflexivity.
Defined.

Lemma created_node_loads_witness :
  exists bp' node' bp1 node1,
    @btree_create_node u64_u64 (small_pool 0) E_LEAF uninitialised
    = Some (bp', E_NO_ERROR, node')
    /\ @btree_load_node u64_u64 bp' 4 uninitialised = Some (bp1, E_NO_ERROR, node1)
    /\ p_keys node1 = p_keys node'
    /\ p_children_values node1 = p_children_values node'
    /\ pin_count bp1 4 = 2%nat.
Proof.
  destruct (@btree_create_node u64_u64 (small_pool 0) E_LEAF uninitialised)
    as [[[bp' err] node']|] eqn:Hc; [|vm_compute in Hc; discriminate].
  assert (err = E_NO_ERROR /\ m_handler node' = mkHandler 4) as [-> Hh].
  { vm_compute in Hc. injection Hc as _ <- <-. done. }
  destruct (@created_node_loads u64_u64 (small_pool 0) E_LEAF uninitialised bp' node'
              uninitialised Hc) as (bp1 & node1 & Hload & _ & _ & Hk & He & _ & Hpin).
  - rewrite Hh. vm_compute. discriminate.
  - rewrite Hh in Hload, Hpin. exists bp', node', bp1, node1. done.
Defined.

Lemma next_leaf_finds_slot_witness :
  exists i,
    @btree_next_leaf u64_u64 (small_pool 0) (loaded 3 right_page) 30 = Some i
    /\ @leftmost_ge u64_u64 right_page (loaded 3 right_page) 30 i
    /\ forall j, 0 <= j < 3 ->
                 @key_at u64_u64 right_page (loaded 3 right_page) j = Some 30 -> i = j.
Proof.
  apply (@next_leaf_finds_slot u64_u64 (small_pool 0) (loaded 3 right_page) 30 right_page).
  - reflexivity.
  - reflexivity.
  - apply (small_in_bounds E_LEAF 3); [lia | reflexivity | reflexivity].
  - apply right_ascending.
Defined.

Lemma load_node_corrupted_page_witness :
  exists bp1 err1 node1,
    @btree_load_node u64_u64 (small_pool 0) 5 uninitialised = Some (bp1, err1, node1)
    /\ (err1 = E_BTREE_CORRUPTED_PAGE <->
        exists pg, bp_pages (small_pool 0) !! 5 = Some pg
                   /\ (m_keySize (pg_header pg) <> 8
                       \/ m_elementSize (pg_header pg)
                          <> @element_size u64_u64 (m_type (pg_header pg))))
    /\ (err1 = E_BTREE_CORRUPTED_PAGE -> same_pins (small_pool 0) bp1).
Proof.
  apply (@load_node_corrupted_page u64_u64 (small_pool 0) 5 uninitialised).
  vm_compute. discriminate.
Defined.

Lemma unload_dirty_node_witness :
  btree_unload_node (small_pool 0) dirty_stray
  = (small_pool 0, E_BUFPOOL_FAILURE, dirty_stray)
  /\ exists bp',
       btree_unload_node pinned_pool dirty_left = (bp', E_NO_ERROR, nulled dirty_left)
       /\ 2 ∈ bp_dirty bp' /\ pin_count bp' 2 = 0%nat.
Proof.
  split.
  - apply (unload_dirty_node (small_pool 0) dirty_stray); reflexivity.
  - destruct (unload_dirty_node pinned_pool dirty_left eq_refl) as [_ H].
    destruct (H left_page 0%nat) as (bp' & Hu & Hd & Hp & _); [reflexivity..|].
    exists bp'. done.
Defined.
End TreeContentsFacts.

(** ** Destroying a node *)
Module NodeDestroyFacts.
Import CInt Bytes Mem BufferPool BTree TreeSpec TreeExamples TreeContents TreeScenarios.
Import NodeDestroy.

(** X24: [btree_destroy_node] is [btree_unload_node] followed by
    [release] of the page: when the unload succeeds, destroy returns what
    [release] returns on the pool the unload leaves, with the same nulled
    node; when the unload fails, destroy returns the same error on the same
    pool, releases nothing and leaves the node as it was given. *)
Theorem destroy_unloads_then_releases bp node :
  btree_destroy_node bp node =
    let '(bp1, err, node1) := btree_unload_node bp node in
    if isError err then (bp1, err, node)
    else
      let '(bp2, err2) := release bp1 (m_pId (m_handler node)) in
      (bp2, err2, node1).
Proof.
  unfold btree_destroy_node, btree_unload_node.
  destruct (if m_dirty node then _ else _) as [bp1 err].
  destruct (isError err) eqn:He; [by rewrite He|].
  destruct (unpin bp1 _) as [bp2 err2]. by destruct (isError err2).
Qed.

(** X25: when [unpin] fails because the page has no pin,
    [btree_unload_node] still nulls the pointers of the node, while
    [btree_destroy_node] returns with the pointers as they were; both
    return the error of [unpin], and the pool keeps what [setPageDirty]
    did. *)
Theorem unpin_failure_unload_and_destroy bp node pg :
  bp_pages bp !! m_pId (m_handler node) = Some pg ->
  pin_count bp (m_pId (m_handler node)) = 0%nat ->
  exists bp',
    btree_unload_node bp node = (bp', E_BUFPOOL_FAILURE, nulled node)
    /\ btree_destroy_node bp node = (bp', E_BUFPOOL_FAILURE, node)
    /\ bp_pages bp' = bp_pages bp /\ bp_pins bp' = bp_pins bp
    /\ (m_pId (m_handler node) ∈ bp_dirty bp' <->
        m_dirty node = true \/ m_pId (m_handler node) ∈ bp_dirty bp).
Proof.
  intros Hpg Hpin. unfold btree_unload_node, btree_destroy_node, setPageDirty.
  rewrite Hpg. destruct (m_dirty node); cbn.
  - unfold unpin, pin_count in *. cbn. rewrite Hpin. cbn.
    eexists. split; [done|]. split; [done|]. cbn. split; [done|]. split; [done|].
    split; [by left|]. intros _. apply elem_of_union_l. by apply elem_of_singleton.
  - unfold unpin. rewrite Hpin. cbn.
    eexists. split; [done|]. split; [done|]. split; [done|]. split; [done|].
    split; [by right|]. by intros [?|?].
Qed.

Lemma unpin_failure_unload_and_destroy_witness :
  exists bp',
    btree_unload_node (small_pool 0) dirty_left
    = (bp', E_BUFPOOL_FAILURE, nulled dirty_left)
    /\ btree_destroy_node (small_pool 0) dirty_left
       = (bp', E_BUFPOOL_FAILURE, dirty_left)
    /\ bp_pages bp' = small_pages /\ bp_pins bp' = ∅
    /\ (2 ∈ bp_dirty bp' <-> true = true \/ 2 ∈ (∅ : gset Z)).
Proof.
  apply (unpin_failure_unload_and_destroy (small_pool 0) dirty_left left_page).
  - reflexivity.
  - reflexivity.
Defined.
End NodeDestroyFacts.

(** ** Member access in [btree_get] *)
Module MemberAccessFacts.
Import MemberAccess.

(** [m_children] and [m_leafs] are members of no class of the header. *)
Lemma undeclared_members c :
  declared (members c) "m_children" = None /\ declared (members c) "m_leafs" = None.
Proof. destruct c; done. Qed.

(** The member expressions of [btree_next_leaf] have a type. *)
Lemma btree_next_leaf_members_typed :
  typed node_object btree_next_leaf_members
  = [(411%nat, Some Scalar); (413%nat, Some Scalar); (414%nat, Some Scalar);
     (417%nat, Some Scalar)].
Proof. reflexivity. Qed.

(** Of the member expressions of [btree_get] only the one of the
    [switch] has a type: [node] is an object, and lines 442, 455 and 456
    apply [->] to it. *)
Lemma btree_get_members_ill_typed :
  typed node_object btree_get_members
  = [(438%nat, Some Scalar); (442%nat, None); (455%nat, None); (455%nat, None);
     (456%nat, None)].
Proof. reflexivity. Qed.

(** Were [node] a pointer, line 438 would have no type, and lines 442 and
    456 still name members that are not declared. *)
Lemma btree_get_members_through_pointer :
  typed node_pointer btree_get_members
  = [(438%nat, None); (442%nat, None); (455%nat, Some Scalar); (455%nat, Some Scalar);
     (456%nat, None)].
Proof. reflexivity. Qed.

(** The label [case BTNodeType::E_LEAF] is reached past the initialisations
    of [child_idx] and [childPage]. *)
Lemma btree_get_case_bypasses_initialisation :
  bypassing [] btree_get_switch = [(453%nat, ["child_idx"; "childPage"])].
Proof. reflexivity. Qed.
End MemberAccessFacts.
